(** * Query-safety pipeline of the chat application: model and properties

    Shallow embedding of the parts of [utils.py], [security.py],
    [database.py] and [app.py] that make up the SQL safety gate, followed by
    the properties established about them.

    Python strings are modelled as lists of 8-bit characters, each character
    standing for the code point of the same number (code points below 256).
    On that alphabet the character classes used by [re] and by [str.strip]
    are reproduced exactly. *)

From Stdlib Require Import List String Ascii NArith ZArith Bool Lia Arith.
From Stdlib Require Import DecimalString.
Import ListNotations.

Set Implicit Arguments.

(** ** Python strings *)

Module PyStr.

Definition str := list ascii.

Definition of_string : string -> str := list_ascii_of_string.

Definition code (c : ascii) : N := N_of_ascii c.

Definition in_range (lo hi : N) (c : ascii) : bool :=
  (N.leb lo (code c) && N.leb (code c) hi)%bool.

(** [str.isspace] on one character, which is also [\s] of [re] and the
    set removed by [str.strip()]: TAB..CR, FS..US, space, NEL, NBSP. *)
Definition isspace (c : ascii) : bool :=
  in_range 9 13 c || in_range 28 32 c || N.eqb (code c) 133
  || N.eqb (code c) 160.

(** [\d] of [re]: the decimal digits. *)
Definition isdecimal (c : ascii) : bool := in_range 48 57 c.

Definition isupper_ascii (c : ascii) : bool := in_range 65 90 c.
Definition islower_ascii (c : ascii) : bool := in_range 97 122 c.

(** Alphanumeric characters in the sense of [str.isalnum]: the ASCII
    letters and digits, the Latin-1 letters, and the Latin-1 characters
    with a numeric value (superscripts and vulgar fractions). *)
Definition isalnum (c : ascii) : bool :=
  isdecimal c || isupper_ascii c || islower_ascii c
  || N.eqb (code c) 170 || N.eqb (code c) 181 || N.eqb (code c) 186
  || in_range 192 214 c || in_range 216 246 c || in_range 248 255 c
  || in_range 178 179 c || N.eqb (code c) 185 || in_range 188 190 c.

(** [\w] of [re]. *)
Definition isword (c : ascii) : bool := isalnum c || N.eqb (code c) 95.

(** Lower-case folding used by [re.IGNORECASE] when the pattern character
    is an ASCII character. *)
Definition lower_ascii (c : ascii) : ascii :=
  if isupper_ascii c then ascii_of_N (code c + 32) else c.

(** [str.upper], as a list of code points: the upper-case form of a
    character may lie above 255 or be two characters long. *)
Definition upper_char (c : ascii) : list N :=
  let n := code c in
  (if islower_ascii c then [n - 32]
   else if N.eqb n 223 then [83; 83]
   else if N.eqb n 181 then [924]
   else if N.eqb n 255 then [376]
   else if (in_range 224 254 c && negb (N.eqb n 247))%bool then [n - 32]
   else [n])%N.

Definition upper (s : str) : list N := flat_map upper_char s.

Definition codes (s : str) : list N := map code s.

Fixpoint lstrip_by (p : ascii -> bool) (s : str) : str :=
  match s with
  | c :: s' => if p c then lstrip_by p s' else s
  | [] => []
  end.

Definition rstrip_by (p : ascii -> bool) (s : str) : str :=
  rev (lstrip_by p (rev s)).

(** [s.strip()] *)
Definition strip (s : str) : str := rstrip_by isspace (lstrip_by isspace s).

(** [s.rstrip(chars)] *)
Definition rstrip_chars (chars : str) (s : str) : str :=
  rstrip_by (fun c => existsb (Ascii.eqb c) chars) s.

Definition len (s : str) : Z := Z.of_nat (List.length s).

(** [str(n)] for an integer. *)
Definition str_of_Z (z : Z) : str :=
  of_string (NilZero.string_of_int (Z.to_int z)).

Fixpoint eqb (a b : str) : bool :=
  match a, b with
  | [], [] => true
  | x :: a', y :: b' => Ascii.eqb x y && eqb a' b'
  | _, _ => false
  end.

End PyStr.

Import PyStr.
Coercion PyStr.of_string : string >-> PyStr.str.

Open Scope string_scope.
Open Scope list_scope.

(** ** The fragment of [re] used by the program *)

Module Re.

(** Patterns.  Every repetition in the program's patterns is applied to a
    single character class, so repetition is a constructor over classes.
    Groups, capturing or not, only delimit alternatives; a lazy repetition
    accepts the same inputs as the greedy one when only the existence of a
    match is observed, which is the only use [re.search] is put to. *)
Inductive regex : Type :=
| Eps : regex
| Chr : ascii -> regex                 (* a literal character *)
| Cls : (ascii -> bool) -> regex       (* \s \d \w . [...] *)
| Star : (ascii -> bool) -> regex      (* c*  and  c*?  *)
| Cat : regex -> regex -> regex
| Alt : regex -> regex -> regex
| Bnd : regex.                         (* \b *)

Definition Plus (p : ascii -> bool) : regex := Cat (Cls p) (Star p).

Fixpoint lit (s : str) : regex :=
  match s with
  | [] => Eps
  | c :: s' => Cat (Chr c) (lit s')
  end.

Definition cats (rs : list regex) : regex := fold_right Cat Eps rs.

Fixpoint alts (rs : list regex) : regex :=
  match rs with
  | [] => Cls (fun _ => false)
  | [r] => r
  | r :: rs' => Alt r (alts rs')
  end.

Definition space : ascii -> bool := isspace.
Definition digit : ascii -> bool := isdecimal.
Definition word : ascii -> bool := isword.
(** [.] without DOTALL: anything but a line feed. *)
Definition dot (c : ascii) : bool := negb (Ascii.eqb c "010"%char).
Definition one_of (cs : str) (c : ascii) : bool := existsb (Ascii.eqb c) cs.
Definition none_of (cs : str) (c : ascii) : bool := negb (one_of cs c).

(** A literal under the flags: with IGNORECASE both sides are folded. *)
Definition chr_match (icase : bool) (c x : ascii) : bool :=
  if icase then Ascii.eqb (lower_ascii c) (lower_ascii x) else Ascii.eqb c x.

Definition is_word_opt (o : option ascii) : bool :=
  match o with Some c => isword c | None => false end.

(** [\b] holds between [prev] and the next character when exactly one of
    them is a word character. *)
Definition at_boundary (prev : option ascii) (s : str) : bool :=
  xorb (is_word_opt prev) (is_word_opt (hd_error s)).

(** Repetition of a class, then the continuation: every split of the
    longest run is tried, the shortest first. *)
Fixpoint star_k (p : ascii -> bool) (k : option ascii -> str -> bool)
         (prev : option ascii) (s : str) {struct s} : bool :=
  if k prev s then true
  else match s with
       | x :: s' => if p x then star_k p k (Some x) s' else false
       | [] => false
       end.

(** Backtracking matcher in continuation-passing style: [prev] is the
    character before the current position, [s] the rest of the subject. *)
Fixpoint match_k (icase : bool) (r : regex) (prev : option ascii) (s : str)
         (k : option ascii -> str -> bool) {struct r} : bool :=
  match r with
  | Eps => k prev s
  | Chr c =>
      match s with
      | x :: s' => if chr_match icase c x then k (Some x) s' else false
      | [] => false
      end
  | Cls p =>
      match s with
      | x :: s' => if p x then k (Some x) s' else false
      | [] => false
      end
  | Star p => star_k p k prev s
  | Cat a b =>
      match_k icase a prev s (fun prev' s' => match_k icase b prev' s' k)
  | Alt a b =>
      if match_k icase a prev s k then true else match_k icase b prev s k
  | Bnd => if at_boundary prev s then k prev s else false
  end.

Definition match_here (icase : bool) (r : regex) (prev : option ascii)
           (s : str) : bool :=
  match_k icase r prev s (fun _ _ => true).

Fixpoint search_from (icase : bool) (r : regex) (prev : option ascii)
         (s : str) : bool :=
  if match_here icase r prev s then true
  else match s with
       | x :: s' => search_from icase r (Some x) s'
       | [] => false
       end.

(** [bool(re.search(pattern, s, flags))] *)
Definition search (icase : bool) (r : regex) (s : str) : bool :=
  search_from icase r None s.

(** *** Declarative reading of a pattern

    [matches icase r prev w rest]: pattern [r] matches exactly the
    characters [w], in a subject where [prev] is the character before [w]
    and [rest] is what follows it. *)

Definition last_char (prev : option ascii) (w : str) : option ascii :=
  match rev w with
  | c :: _ => Some c
  | [] => prev
  end.

Fixpoint matches (icase : bool) (r : regex) (prev : option ascii)
         (w rest : str) {struct r} : Prop :=
  match r with
  | Eps => w = []
  | Chr c => exists x, w = [x] /\ chr_match icase c x = true
  | Cls p => exists x, w = [x] /\ p x = true
  | Star p => forallb p w = true
  | Cat a b =>
      exists w1 w2, w = w1 ++ w2 /\ matches icase a prev w1 (w2 ++ rest)
                    /\ matches icase b (last_char prev w1) w2 rest
  | Alt a b => matches icase a prev w rest \/ matches icase b prev w rest
  | Bnd => w = [] /\ at_boundary prev rest = true
  end.

(** Equality up to the case of ASCII letters. *)
Definition same_ignoring_case (a b : str) : Prop :=
  Forall2 (fun x y => lower_ascii x = lower_ascii y) a b.

(** [re.sub(cls, '', s)] for a pattern that is a single character class. *)
Definition sub_cls_empty (p : ascii -> bool) (s : str) : str :=
  filter (fun c => negb (p c)) s.

End Re.

Import Re.

(** ** The part of [sqlparse] the program relies on

    [sqlparse] is a third-party library.  The program looks at a parsed
    statement only through [statement.flatten()], the sequence of its leaf
    tokens, and at each token only through [ttype] and [value]; a statement
    is therefore represented by its leaf tokens. *)

Module SqlParse.

Inductive tokentype : Type :=
| Whitespace | Newline | Comment_Single | Comment_Multiline
| Punctuation | Wildcard | Keyword_DML | Name | Number_Integer
| String_Single | Operator.

Record token : Type := Token { ttype : tokentype; value : str }.

Definition statement := list token.

(** A lexer and statement splitter for the token classes above: words,
    integers, blanks, line and block comments, single-quoted strings
    without escapes, punctuation and operators.  The splitter follows
    [StatementSplitter.process]: a statement ends at a [;] outside
    parentheses and keeps the blanks and line comments that follow it.
    The block keywords (BEGIN, DECLARE, CREATE ...) that also change the
    split level are left out. *)

Definition is_nl (c : ascii) : bool :=
  Ascii.eqb c "010"%char || Ascii.eqb c "013"%char.

Fixpoint span (p : ascii -> bool) (s : str) : str * str :=
  match s with
  | c :: s' => if p c then let (a, b) := span p s' in (c :: a, b) else ([], s)
  | [] => ([], [])
  end.

(** The rest of a line, its terminator included. *)
Fixpoint until_eol (s : str) : str * str :=
  match s with
  | [] => ([], [])
  | c :: s' =>
      if Ascii.eqb c "013"%char then
        match s' with
        | d :: s'' => if Ascii.eqb d "010"%char then ([c; d], s'') else ([c], s')
        | [] => ([c], [])
        end
      else if Ascii.eqb c "010"%char then ([c], s')
      else let (a, b) := until_eol s' in (c :: a, b)
  end.

(** Up to and including the first occurrence of [*/], if any. *)
Fixpoint until_close (s : str) : option (str * str) :=
  match s with
  | [] => None
  | c :: s' =>
      match s' with
      | d :: s'' =>
          if (Ascii.eqb c "*"%char && Ascii.eqb d "/"%char)%bool
          then Some ([c; d], s'')
          else match until_close s' with
               | Some (a, b) => Some (c :: a, b)
               | None => None
               end
      | [] => None
      end
  end.

(** Up to and including the next single quote, if any. *)
Fixpoint until_quote (s : str) : option (str * str) :=
  match s with
  | [] => None
  | c :: s' =>
      if Ascii.eqb c "'"%char then Some ([c], s')
      else match until_quote s' with
           | Some (a, b) => Some (c :: a, b)
           | None => None
           end
  end.

Definition starts_with (p : str) (s : str) : bool :=
  PyStr.eqb p (firstn (List.length p) s).

Definition dml_words : list str :=
  [of_string "SELECT"; of_string "INSERT"; of_string "UPDATE";
   of_string "DELETE"; of_string "MERGE"; of_string "UPSERT";
   of_string "REPLACE"].

Definition codes_eqb (a b : list N) : bool :=
  if list_eq_dec N.eq_dec a b then true else false.

Definition classify_word (w : str) : tokentype :=
  if existsb (fun k => codes_eqb (upper w) (codes k)) dml_words
  then Keyword_DML else Name.

Definition word_tail (c : ascii) : bool :=
  isword c || Ascii.eqb c "$"%char || Ascii.eqb c "#"%char.

(** One token and the rest of the input; [None] only on the empty input. *)
Definition next_token (s : str) : option (token * str) :=
  match s with
  | [] => None
  | c :: s' =>
      if (starts_with "--" s || starts_with "# " s)%bool then
        let (a, b) := until_eol s in Some (Token Comment_Single a, b)
      else if starts_with "/*" s then
        match until_close (skipn 2 s) with
        | Some (a, b) => Some (Token Comment_Multiline (firstn 2 s ++ a), b)
        | None => Some (Token Operator [c], s')
        end
      else if starts_with ("013" :: "010" :: nil)%char s
      then Some (Token Newline (firstn 2 s), skipn 2 s)
      else if is_nl c then Some (Token Newline [c], s')
      else if isspace c then Some (Token Whitespace [c], s')
      else if Ascii.eqb c "*"%char then Some (Token Wildcard [c], s')
      else if isdecimal c then
        let (a, b) := span isdecimal s in Some (Token Number_Integer a, b)
      else if Ascii.eqb c "'"%char then
        match until_quote s' with
        | Some (a, b) => Some (Token String_Single (c :: a), b)
        | None => Some (Token Operator [c], s')
        end
      else if isword c then
        let (a, b) := span word_tail s' in
        Some (Token (classify_word (c :: a)) (c :: a), b)
      else if one_of ";:()[],." c then Some (Token Punctuation [c], s')
      else Some (Token Operator [c], s')
  end.

(** Every token takes at least one character, so the length of the input
    is enough fuel. *)
Fixpoint tokenize_fuel (fuel : nat) (s : str) : list token :=
  match fuel with
  | O => []
  | S fuel' =>
      match next_token s with
      | None => []
      | Some (t, rest) => t :: tokenize_fuel fuel' rest
      end
  end.

Definition tokenize (s : str) : list token :=
  tokenize_fuel (List.length s) s.

Definition is_punct (v : str) (t : token) : bool :=
  match ttype t with Punctuation => PyStr.eqb (value t) v | _ => false end.

Definition change_splitlevel (t : token) : Z :=
  if is_punct "(" t then 1%Z else if is_punct ")" t then (-1)%Z else 0%Z.

(** End-of-statement trailers: [EOS_TTYPE]. *)
Definition eos_ttype (t : tokentype) : bool :=
  match t with Whitespace | Comment_Single => true | _ => false end.

Definition is_whitespace_token (t : token) : bool :=
  match ttype t with Whitespace | Newline => true | _ => false end.

(** [cur] is the statement being built, in reverse. *)
Fixpoint split (level : Z) (consume_ws : bool) (cur : list token)
         (ts : list token) : list statement :=
  match ts with
  | [] =>
      match cur with
      | [] => []
      | _ => if forallb is_whitespace_token cur then [] else [rev cur]
      end
  | t :: ts' =>
      let flush := (consume_ws && negb (eos_ttype (ttype t)))%bool in
      let cur0 := if flush then [] else cur in
      let level0 := if flush then 0%Z else level in
      let level' := (level0 + change_splitlevel t)%Z in
      let ends := ((level' <=? 0)%Z && is_punct ";" t)%bool in
      let consume_ws' := if flush then ends else (consume_ws || ends)%bool in
      let rest := split level' consume_ws' (t :: cur0) ts' in
      if flush then rev cur :: rest else rest
  end.

(** [sqlparse.parse(sql)] *)
Definition parse (s : str) : list statement := split 0 false [] (tokenize s).

End SqlParse.

(** ** [utils.py] *)

Module Utils.

(** *** [validate_input] *)

(** [r'<script[^>]*>.*?</script>'] *)
Definition pat_script : regex :=
  cats [lit "<script"; Star (none_of ">"); Chr ">"; Star dot; lit "</script>"].
(** [r'javascript:'] *)
Definition pat_javascript : regex := lit "javascript:".
(** [r'vbscript:'] *)
Definition pat_vbscript : regex := lit "vbscript:".
(** [r'on\w+\s*='] *)
Definition pat_handler : regex :=
  cats [lit "on"; Plus word; Star space; Chr "="].

Definition dangerous_patterns : list regex :=
  [pat_script; pat_javascript; pat_vbscript; pat_handler].

(** The argument is a [str]; the empty string is falsy. *)
Definition validate_input (user_input : str) : bool :=
  match user_input with
  | [] => false
  | _ =>
      let cleaned_input := strip user_input in
      if ((len cleaned_input =? 0)%Z || (len cleaned_input >? 1000)%Z)%bool
      then false
      else if existsb (fun pattern => search true pattern cleaned_input)
                      dangerous_patterns
      then false
      else true
  end.

(** *** [_is_select_statement] *)

Definition skipped (t : SqlParse.tokentype) : bool :=
  match t with
  | SqlParse.Whitespace | SqlParse.Comment_Single
  | SqlParse.Comment_Multiline => true
  | _ => false
  end.

Definition first_significant (statement : SqlParse.statement)
  : option SqlParse.token :=
  find (fun token => negb (skipped (SqlParse.ttype token))) statement.

Definition _is_select_statement (statement : SqlParse.statement) : bool :=
  match first_significant statement with
  | Some first_token =>
      SqlParse.codes_eqb (upper (SqlParse.value first_token))
                         (codes "SELECT")
  | None => false
  end.

(** *** [_contains_dangerous_keywords] *)

(** [r'\bKEYWORD\b'] *)
Definition keyword_pattern (kw : str) : regex := cats [Bnd; lit kw; Bnd].

Definition dangerous_keyword_names : list str :=
  map of_string
      ["INSERT"; "UPDATE"; "DELETE"; "DROP";
       "CREATE"; "ALTER"; "TRUNCATE"; "EXEC";
       "EXECUTE"; "CALL"; "MERGE"; "GRANT";
       "REVOKE"; "COMMIT"; "ROLLBACK"; "SAVEPOINT";
       "LOCK"; "UNLOCK"; "SET"; "RESET";
       "SHOW"; "DESCRIBE"; "EXPLAIN"; "ANALYZE"].

Definition dangerous_keywords : list regex :=
  map keyword_pattern dangerous_keyword_names.

Definition _contains_dangerous_keywords (sql_query : str) : bool :=
  existsb (fun keyword => search true keyword sql_query) dangerous_keywords.

(** *** [_ensure_limit_clause] *)

(** [r'\bLIMIT\s+\d+'] *)
Definition pat_limit : regex := cats [Bnd; lit "LIMIT"; Plus space; Plus digit].

Definition _ensure_limit_clause (sql_query : str) : str :=
  if search true pat_limit sql_query then sql_query
  else rstrip_chars ";" sql_query ++ of_string " LIMIT 100".

(** *** [sanitize_sql]

    [sqlparse.parse] and [sqlparse.format] are supplied by the library; a
    result of [None] stands for an exception raised inside the call, which
    the [try ... except Exception] turns into the rejection value. *)

Section Sanitize.

Variable sqlparse_parse : str -> option (list SqlParse.statement).
Variable sqlparse_format : str -> option str.

Definition sanitize_sql (sql_query : str) : option str :=
  match sql_query with
  | [] => None
  | _ =>
      match sqlparse_parse sql_query with
      | None => None
      | Some [] => None
      | Some (statement :: _) =>
          if negb (_is_select_statement statement) then None
          else if _contains_dangerous_keywords sql_query then None
          else
            match sqlparse_format sql_query with
            | None => None
            | Some formatted_sql =>
                let formatted_sql := _ensure_limit_clause formatted_sql in
                Some (strip formatted_sql)
            end
      end
  end.

End Sanitize.

End Utils.

(** ** Results of calls that may raise *)

Module Py.

Inductive outcome (E A : Type) : Type :=
| Return : A -> outcome E A
| Raise : E -> outcome E A.

Arguments Return {E A} _.
Arguments Raise {E A} _.

Definition bind {E A B} (m : outcome E A) (k : A -> outcome E B)
  : outcome E B :=
  match m with
  | Return a => k a
  | Raise e => Raise e
  end.

(** [try: body finally: cleanup]: the cleanup always runs, and an
    exception it raises replaces the outcome of the body. *)
Definition finally {E A} (body : outcome E A) (cleanup : outcome E unit)
  : outcome E A :=
  match cleanup with
  | Return _ => body
  | Raise e => Raise e
  end.

End Py.

Import Py.

Notation "x <- m ;; k" := (Py.bind m (fun x => k))
  (at level 61, m at next level, right associativity).

(** ** [security.py] *)

Module Security.

Definition quote_chars : str := ["'"; "034"]%char.

(** *** The pattern tables of [SecurityManager.__init__] *)

Definition sql_words : list str :=
  map of_string ["union"; "select"; "insert"; "update"; "delete"; "drop";
                 "create"; "alter"; "exec"; "execute"].

Definition or_and : regex := alts [lit "or"; lit "and"].

Definition sql_injection_patterns : list regex :=
  [ (* (\b(?:union|select|...|execute)\b) *)
    cats [Bnd; alts (map lit sql_words); Bnd];
    (* (--|\#|\/\*|\*\/) *)
    alts [lit "--"; lit "#"; lit "/*"; lit "*/"];
    (* (\b(?:or|and)\s+\d+\s*=\s*\d+) *)
    cats [Bnd; or_and; Plus space; Plus digit; Star space; Chr "=";
         Star space; Plus digit];
    (* (\b(?:or|and)\s+['dq].*['dq]) *)
    cats [Bnd; or_and; Plus space; Cls (one_of quote_chars); Star dot;
         Cls (one_of quote_chars)];
    (* (;|\|\||&&) *)
    alts [lit ";"; lit "||"; lit "&&"] ].

(** [<\s*TAG[^>]*>] *)
Definition open_tag (tag : str) : regex :=
  cats [Chr "<"; Star space; lit tag; Star (none_of ">"); Chr ">"].

Definition xss_patterns : list regex :=
  [ (* <\s*script[^>]*>.*?<\s*/\s*script\s*> *)
    cats [open_tag "script"; Star dot; Chr "<"; Star space; Chr "/";
         Star space; lit "script"; Star space; Chr ">"];
    (* javascript\s*: *)
    cats [lit "javascript"; Star space; Chr ":"];
    (* on\w+\s*= *)
    cats [lit "on"; Plus word; Star space; Chr "="];
    open_tag "iframe";
    open_tag "object";
    open_tag "embed" ].

(** *** [validate_input] *)

Record ValidationResult : Type := {
  valid : bool;
  sanitized : str;
  warnings : list str
}.

(** [result['valid'] = False; result['warnings'].append(w)] *)
Definition reject (result : ValidationResult) (w : str) : ValidationResult :=
  {| valid := false;
     sanitized := sanitized result;
     warnings := warnings result ++ [w] |}.

Definition with_sanitized (result : ValidationResult) (s : str)
  : ValidationResult :=
  {| valid := valid result; sanitized := s; warnings := warnings result |}.

Definition warn_length (max_length : Z) : str :=
  of_string "Input exceeds maximum length of " ++ str_of_Z max_length
  ++ of_string " characters".
Definition warn_sql : str := "Potential SQL injection detected".
Definition warn_xss : str := "Potential XSS attack detected".

Definition log_sql (input_text : str) : str :=
  of_string "SQL injection attempt detected: " ++ firstn 100 input_text
  ++ of_string "...".
Definition log_xss (input_text : str) : str :=
  of_string "XSS attempt detected: " ++ firstn 100 input_text
  ++ of_string "...".

(** [for pattern in patterns: if re.search(pattern, text, re.IGNORECASE):
    ...; break]: the body runs once, on the first pattern that matches. *)
Definition matches_any (patterns : list regex) (text : str) : bool :=
  existsb (fun pattern => search true pattern text) patterns.

(** The result dictionary, and the records written to the logger. *)
Definition validate_input (input_text : str) (max_length : Z)
  : ValidationResult * list str :=
  let result :=
    {| valid := true; sanitized := strip input_text; warnings := [] |} in
  (* Length check *)
  if (len input_text >? max_length)%Z then
    (reject result (warn_length max_length), [])
  else
    (* SQL injection check *)
    let '(result, log) :=
      if matches_any sql_injection_patterns input_text
      then (reject result warn_sql, [log_sql input_text])
      else (result, []) in
    (* XSS check *)
    let '(result, log) :=
      if matches_any xss_patterns input_text
      then (reject result warn_xss, log ++ [log_xss input_text])
      else (result, log) in
    (* Sanitize input *)
    let result :=
      if valid result
      then with_sanitized result
             (sub_cls_empty (one_of ("<" :: ">" :: quote_chars)%char)
                            (strip input_text))
      else result in
    (result, log).

(** *** [validate_session_token]

    A token is modelled by what [jwt.decode] reads from it: either it is
    not a well-formed JWT, or it carries an algorithm name, a set of
    claims and a signature.  The HS256 signing function is a parameter.
    Times are in microseconds since the epoch; [exp] is in seconds. *)

Record payload : Type := {
  user_id : str;
  iat : Z;
  exp : option Z;
  session_id : str
}.

Inductive token : Type :=
| Malformed : token
| Jwt (alg : str) (claims : payload) (signature : str) : token.

Inductive exn : Type :=
| ExpiredSignatureError      (* a subclass of InvalidTokenError *)
| InvalidSignatureError      (* a subclass of InvalidTokenError *)
| InvalidAlgorithmError      (* a subclass of InvalidTokenError *)
| DecodeError                (* a subclass of InvalidTokenError *)
| KeyError
| OverflowError.

Definition is_InvalidTokenError (e : exn) : bool :=
  match e with
  | ExpiredSignatureError | InvalidSignatureError | InvalidAlgorithmError
  | DecodeError => true
  | KeyError | OverflowError => false
  end.

Definition usec (seconds : Z) : Z := (seconds * 1000000)%Z.

(** [datetime.fromtimestamp(t, timezone.utc)]: defined for the years 1 to
    9999. *)
Definition fromtimestamp (t : Z) : outcome exn Z :=
  if ((-62135596800 <=? t) && (t <=? 253402300799))%Z%bool
  then Return (usec t) else Raise OverflowError.

Section Session.

Variable hs256 : str -> payload -> str.

(** [jwt.encode(payload, key, algorithm='HS256')] *)
Definition jwt_encode (p : payload) (key : str) : token :=
  Jwt "HS256" p (hs256 key p).

(** [jwt.decode(token, key, algorithms=[...])] at time [now]: the
    algorithm and the signature are verified first, then the claims. *)
Definition jwt_decode (now : Z) (t : token) (key : str)
           (algorithms : list str) : outcome exn payload :=
  match t with
  | Malformed => Raise DecodeError
  | Jwt alg claims signature =>
      if negb (existsb (PyStr.eqb alg) algorithms)
      then Raise InvalidAlgorithmError
      else if negb (PyStr.eqb signature (hs256 key claims))
      then Raise InvalidSignatureError
      else match exp claims with
           | Some e =>
               if (usec e <=? now)%Z then Raise ExpiredSignatureError
               else Return claims
           | None => Return claims
           end
  end.

Variable jwt_secret : str.

Definition validate_session_token (now : Z) (t : token)
  : outcome exn (option payload) :=
  match jwt_decode now t jwt_secret [of_string "HS256"] with
  | Return p =>
      (* payload['exp'] *)
      match exp p with
      | None => Raise KeyError
      | Some e =>
          expires <- fromtimestamp e ;;
          if (now >? expires)%Z then Return None else Return (Some p)
      end
  | Raise ExpiredSignatureError => Return None
  | Raise e =>
      if is_InvalidTokenError e then Return None else Raise e
  end.

End Session.

End Security.

(** ** [database.py] *)

Module Database.

(** Column values returned by the driver. *)
Inductive value : Type :=
| VNull : value
| VInt : Z -> value
| VText : str -> value.

(** A result row as built by [dict(zip(column_names, row))]: keys in
    first-insertion order, a repeated key keeping its place and taking
    the later value. *)
Definition row := list (str * value).

Fixpoint dict_set (d : row) (k : str) (v : value) : row :=
  match d with
  | [] => [(k, v)]
  | (k', v') :: d' =>
      if PyStr.eqb k' k then (k', v) :: d' else (k', v') :: dict_set d' k v
  end.

Definition dict_zip (column_names : list str) (r : list value) : row :=
  fold_left (fun d kv => dict_set d (fst kv) (snd kv))
            (combine column_names r) [].

Inductive exn : Type :=
| Psycopg2Error : str -> exn        (* psycopg2.Error and subclasses *)
| OtherException : str -> exn.      (* any other subclass of Exception *)

Definition result := outcome exn.

(** What the pool, the connection and the cursor answer during one call.
    Every operation may raise. *)
Record driver : Type := {
  getconn : result bool;                        (* is the connection truthy *)
  cursor : result unit;                         (* conn.cursor() *)
  execute : str -> option (list value) -> result unit;
  fetchall : result (list (list value));
  description : option (list str);              (* names, desc[0] *)
  close : result unit;                          (* leaving the cursor block *)
  rollback : result unit;
  putconn : result unit
}.

Section ExecuteQuery.

Variable d : driver.

(** [with self.get_connection() as conn: body]: the body runs if a
    connection was obtained; on any exception the connection, if any,
    is rolled back and the exception re-raised; the connection, if any,
    goes back to the pool on every path. *)
Definition with_connection {A} (body : result A) : result A :=
  match getconn d with
  | Raise e => Raise e
  | Return false => Raise (OtherException "Failed to get connection from pool")
  | Return true =>
      finally
        match body with
        | Return a => Return a
        | Raise e => _ <- rollback d ;; Raise e
        end
        (putconn d)
  end.

(** [with conn.cursor() as cursor: body] *)
Definition with_cursor {A} (body : result A) : result A :=
  _ <- cursor d ;; finally body (close d).

(** [if params:] an empty tuple is falsy. *)
Definition truthy (params : option (list value)) : bool :=
  match params with
  | Some (_ :: _) => true
  | _ => false
  end.

Definition run_statement (query : str) (params : option (list value))
  : result (list row) :=
  _ <- execute d "SET statement_timeout = '30s'" None ;;
  _ <- (if truthy params then execute d query params
        else execute d query None) ;;
  results <- fetchall d ;;
  column_names <- match description d with
                  | Some names => Return names
                  | None => Raise (OtherException "TypeError")
                  end ;;
  Return (map (dict_zip column_names) results).

(** The returned value is [None] or the list of rows. *)
Definition execute_query (query : str) (params : option (list value))
  : result (option (list row)) :=
  match with_connection (with_cursor (run_statement query params)) with
  | Return formatted_results => Return (Some formatted_results)
  | Raise (Psycopg2Error _) => Return None
  | Raise (OtherException _) => Return None
  end.

End ExecuteQuery.

End Database.

(** ** [app.py]: the chat route *)

Module App.

Inductive event : Type :=
| TranslateCall : str -> event          (* natural_language_to_sql *)
| ExecuteCall : str -> event            (* db_manager.execute_query *)
| SummarizeCall : str -> str -> event.  (* sql_results_to_natural_language *)

Inductive response : Type :=
| Error400 : str -> response
| Error500 : str -> response
| Success : str -> nat -> response.     (* response, row_count *)

Section Chat.

Variable sqlparse_parse : str -> option (list SqlParse.statement).
Variable sqlparse_format : str -> option str.
Variable natural_language_to_sql : str -> option str.
Variable execute_query : str -> option (list Database.row).
Variable sql_results_to_natural_language :
  str -> str -> list Database.row -> str.

(** The route on the value of [data.get('message', '')]: the calls made
    to the collaborators, in order, and the response. *)
Definition chat (message : str) : list event * response :=
  let user_message := strip message in
  if negb (Utils.validate_input user_message) then
    ([], Error400 "Invalid input. Please provide a valid question.")
  else
    match natural_language_to_sql user_message with
    | None | Some [] =>
        ([TranslateCall user_message],
         Error400 "Unable to generate SQL query from your question.")
    | Some sql_query =>
        match Utils.sanitize_sql sqlparse_parse sqlparse_format sql_query with
        | None | Some [] =>
            ([TranslateCall user_message],
             Error400 "Generated SQL query contains potentially harmful operations.")
        | Some sanitized_sql =>
            match execute_query sanitized_sql with
            | None =>
                ([TranslateCall user_message; ExecuteCall sanitized_sql],
                 Error500 "Failed to execute database query.")
            | Some query_results =>
                let natural_response :=
                  sql_results_to_natural_language
                    user_message sanitized_sql query_results in
                ([TranslateCall user_message; ExecuteCall sanitized_sql;
                  SummarizeCall user_message sanitized_sql],
                 Success natural_response (List.length query_results))
            end
        end
    end.

End Chat.

(** [db_manager.execute_query(sanitized_sql)] as the route sees it: the
    returned value; the call has no parameters. *)
Definition run_query (d : Database.driver) (sql : str)
  : option (list Database.row) :=
  match Database.execute_query d sql None with
  | Return v => v
  | Raise _ => None
  end.

End App.

(** ** Vocabulary of the specification *)

Module Spec.

(** Every 8-bit character. *)
Definition all_ascii : list ascii := map ascii_of_nat (seq 0 256).

Definition is_letter (c : ascii) : bool :=
  isupper_ascii c || islower_ascii c.

(** *** Keyword deny-list *)

(** The deny-listed keywords, in the order the specification lists
    them. *)
Definition deny_list : list str :=
  map of_string
      ["INSERT"; "UPDATE"; "DELETE"; "MERGE";
       "CREATE"; "ALTER"; "DROP"; "TRUNCATE";
       "EXEC"; "EXECUTE"; "CALL";
       "GRANT"; "REVOKE";
       "COMMIT"; "ROLLBACK"; "SAVEPOINT"; "LOCK"; "UNLOCK";
       "SET"; "RESET";
       "SHOW"; "DESCRIBE"; "EXPLAIN"; "ANALYZE"].

(** [text] contains [kw] as a whole word, matched case-insensitively: an
    occurrence of [kw] up to case with no word character (letter, digit
    or underscore) right before or right after it. *)
Definition whole_word_occurrence (kw text : str) : Prop :=
  exists pre w post,
    text = pre ++ w ++ post
    /\ same_ignoring_case kw w
    /\ is_word_opt (last_char None pre) = false
    /\ is_word_opt (hd_error post) = false.

Definition contains_denied_word (text : str) : Prop :=
  exists kw, In kw deny_list /\ whole_word_occurrence kw text.

(** *** LIMIT clauses *)

Definition digits_value (ds : str) : N :=
  fold_left (fun acc c => (acc * 10 + (code c - 48))%N) ds 0%N.

Definition not_a_digit (o : option ascii) : Prop :=
  match o with Some c => isdecimal c = false | None => True end.

(** [s] contains a clause [LIMIT n]: the word LIMIT in any case, not
    glued to a preceding word character, then blanks, then the decimal
    number [n] written with all its digits. *)
Definition limit_clause (s : str) (n : N) : Prop :=
  exists pre kw ws ds post,
    s = pre ++ kw ++ ws ++ ds ++ post
    /\ same_ignoring_case (of_string "LIMIT") kw
    /\ is_word_opt (last_char None pre) = false
    /\ ws <> [] /\ forallb isspace ws = true
    /\ ds <> [] /\ forallb isdecimal ds = true
    /\ not_a_digit (hd_error post)
    /\ digits_value ds = n.

Definition has_limit_clause (s : str) : Prop := exists n, limit_clause s n.

(** [s] with every trailing statement terminator removed. *)
Fixpoint without_trailing_terminators (s : str) : str :=
  match s with
  | [] => []
  | c :: s' =>
      match without_trailing_terminators s' with
      | [] => if Ascii.eqb c ";"%char then [] else [c]
      | r => c :: r
      end
  end.

Definition ends_with (suffix s : str) : Prop := exists p, s = p ++ suffix.

Definition starts_with_set (q : str) : bool :=
  SqlParse.starts_with "SET " q.

(** *** The input threat scanner *)

(** The [ValidationResult] of a call, and the records it logs. *)
Definition scan (input_text : str) (max_length : Z)
  : Security.ValidationResult :=
  fst (Security.validate_input input_text max_length).

Definition scan_log (input_text : str) (max_length : Z) : list str :=
  snd (Security.validate_input input_text max_length).

(** The warnings of the two pattern checks, each present when its check
    finds a match. *)
Definition pattern_warnings (input_text : str) : list str :=
  (if Security.matches_any Security.sql_injection_patterns input_text
   then [Security.warn_sql] else [])
  ++ (if Security.matches_any Security.xss_patterns input_text
      then [Security.warn_xss] else []).

Definition pattern_log (input_text : str) : list str :=
  (if Security.matches_any Security.sql_injection_patterns input_text
   then [Security.log_sql input_text] else [])
  ++ (if Security.matches_any Security.xss_patterns input_text
      then [Security.log_xss input_text] else []).

(** *** Session tokens used as examples *)

(** A stand-in for HS256: any function of the key and the claims will
    do, the properties hold for every signing function. *)
Definition sample_hs256 (key : str) (p : Security.payload) : str :=
  key ++ of_string ":" ++ Security.user_id p ++ of_string ":"
  ++ Security.session_id p
  ++ match Security.exp p with
     | Some e => of_string ":" ++ str_of_Z e
     | None => []
     end.

Definition sample_claims : Security.payload :=
  {| Security.user_id := of_string "ann"; Security.iat := 1000;
     Security.exp := Some 2000%Z; Security.session_id := of_string "s1" |}.

(** *** Drivers used as examples *)

(** A database whose statements time out. *)
Definition failing_driver : Database.driver :=
  {| Database.getconn := Return true;
     Database.cursor := Return tt;
     Database.execute := fun q _ =>
       if starts_with_set q then Return tt
       else Raise (Database.Psycopg2Error "statement timeout");
     Database.fetchall := Return [];
     Database.description := None;
     Database.close := Return tt;
     Database.rollback := Return tt;
     Database.putconn := Return tt |}.

(** *** Statements used as examples *)

Definition nl : str := ["010"%char].

(** [SELECT * FROM t LIMIT 10000] as [sqlparse.format] lays it out with
    [reindent=True]: one clause per line. *)
Definition large_limit_formatted : str :=
  of_string "SELECT *" ++ nl ++ of_string "FROM t" ++ nl
  ++ of_string "LIMIT 10000".

(** [SELECT 1; SELECT 2] as [sqlparse.format] lays it out: the two
    statements separated by an empty line. *)
Definition two_statements_formatted : str :=
  of_string "SELECT 1;" ++ nl ++ nl ++ of_string "SELECT 2".

(** [sqlparse.parse] never raising, as the lexer model above. *)
Definition parse_model (s : str) : option (list SqlParse.statement) :=
  Some (SqlParse.parse s).

End Spec.

Import Spec.

(** ** [security.py]: issuing tokens, client address, allow-list, guard *)

Module SecurityMore.

(** *** [generate_session_token] *)

(** The instants a [datetime] can hold, in microseconds: years 1 to
    9999. *)
Definition datetime_min : Z := (-62135596800 * 1000000)%Z.
Definition datetime_max : Z := (253402300799 * 1000000 + 999999)%Z.

(** [timegm(dt.utctimetuple())]: whole seconds, the microseconds dropped. *)
Definition timegm (instant : Z) : Z := (instant / 1000000)%Z.

Section Issue.

Variable hs256 : str -> Security.payload -> str.
Variable jwt_secret : str.

(** [now] is the clock at the call, [session_id] the value drawn by
    [secrets.token_urlsafe(16)].  Adding the [timedelta] overflows when
    the expiry leaves the range of [datetime]; the exception is logged
    and re-raised. *)
Definition generate_session_token (now : Z) (session_id : str)
           (user_id : str) (expiry_hours : Z)
  : outcome Security.exn Security.token :=
  let expiry := (now + expiry_hours * 3600 * 1000000)%Z in
  if ((datetime_min <=? expiry) && (expiry <=? datetime_max))%Z%bool then
    let payload :=
      {| Security.user_id := user_id;
         Security.iat := timegm now;
         Security.exp := Some (timegm expiry);
         Security.session_id := session_id |} in
    Return (Security.jwt_encode hs256 payload jwt_secret)
  else Raise Security.OverflowError.

End Issue.

(** *** [check_ip_whitelist] *)

(** An address as [ipaddress] holds it: the version and the integer. *)
Inductive ip : Type :=
| IPv4 : N -> ip
| IPv6 : N -> ip.

(** An IPv4 network: its address and its prefix length. *)
Record network : Type := { network_address : N; prefixlen : N }.

Definition ipv4 (a b c d : N) : N :=
  (a * 16777216 + b * 65536 + c * 256 + d)%N.

Definition netmask (net : network) : N :=
  N.shiftl (N.ones (prefixlen net)) (32 - prefixlen net).

(** [ip in network]: false across versions, otherwise the masked
    address is compared with the network address. *)
Definition contains (net : network) (a : ip) : bool :=
  match a with
  | IPv4 n => N.eqb (N.land n (netmask net)) (network_address net)
  | IPv6 _ => false
  end.

(** ['127.0.0.0/8', '10.0.0.0/8', '172.16.0.0/12', '192.168.0.0/16'] *)
Definition allowed_ip_ranges : list network :=
  [ {| network_address := ipv4 127 0 0 0; prefixlen := 8 |};
    {| network_address := ipv4 10 0 0 0; prefixlen := 8 |};
    {| network_address := ipv4 172 16 0 0; prefixlen := 12 |};
    {| network_address := ipv4 192 168 0 0; prefixlen := 16 |} ].

Section Whitelist.

(** [ipaddress.ip_address]: [None] stands for [ValueError]. *)
Variable ip_address : str -> option ip.

Definition check_ip_whitelist (address : str) : bool :=
  match ip_address address with
  | Some a => existsb (fun range => contains range a) allowed_ip_ranges
  | None => false
  end.

(** *** [get_client_ip] *)

(** [s.split(',')[0]] *)
Fixpoint before_comma (s : str) : str :=
  match s with
  | [] => []
  | c :: s' => if Ascii.eqb c ","%char then [] else c :: before_comma s'
  end.

(** The request as the function reads it: the two headers, absent or
    present, and the socket address. *)
Record request : Type := {
  x_forwarded_for : option str;
  x_real_ip : option str;
  remote_addr : str
}.

Definition get_client_ip (r : request) : str :=
  match x_forwarded_for r with
  | Some (c :: f) => strip (before_comma (c :: f))
  | _ =>
      match x_real_ip r with
      | Some (c :: real_ip) => c :: real_ip
      | _ => remote_addr r
      end
  end.

(** [check_ip_whitelist_decorator]: does the wrapped handler run. *)
Definition ip_check_passes (r : request) : bool :=
  check_ip_whitelist (get_client_ip r).

End Whitelist.

(** *** [validate_input_security] *)

(** A JSON value as the guard sees it: a string, or anything else. *)
Inductive json : Type :=
| JString : str -> json
| JOther : json.

Inductive guard_result : Type :=
| Handled : guard_result                       (* the handler runs *)
| Rejected : str -> list str -> guard_result.  (* field, warnings: 400 *)

Fixpoint check_items (max_length : Z) (items : list (str * json))
  : guard_result :=
  match items with
  | [] => Handled
  | (key, JString value) :: items' =>
      let validation := fst (Security.validate_input value max_length) in
      if negb (Security.valid validation)
      then Rejected key (Security.warnings validation)
      else check_items max_length items'
  | (_, JOther) :: items' => check_items max_length items'
  end.

(** [body] is [None] when the request is not JSON or its body is not a
    non-empty object; otherwise the items of the object, in order. *)
Definition validate_input_security (max_length : Z)
           (body : option (list (str * json))) : guard_result :=
  match body with
  | Some items => check_items max_length items
  | None => Handled
  end.

End SecurityMore.

(** ** [database.py]: the driver operations a call performs *)

Module DatabaseTrace.

Import Database.

(** The operations on the pool, the connection and the cursor. *)
Inductive op : Type :=
| GetConn | Cursor
| Execute : str -> option (list value) -> op
| FetchAll | Description | Commit | RowCount
| Close | Rollback | PutConn.

(** A computation with the operations it performed, in order. *)
Definition traced (A : Type) : Type := (list op * result A)%type.

Definition call {A} (o : op) (r : result A) : traced A := ([o], r).

Definition tret {A} (a : A) : traced A := ([], Return a).

Definition tbind {A B} (m : traced A) (k : A -> traced B) : traced B :=
  match m with
  | (tr, Return a) => let (tr', r) := k a in (tr ++ tr', r)
  | (tr, Raise e) => (tr, Raise e)
  end.

Definition tfinally {A} (body : traced A) (cleanup : traced unit)
  : traced A :=
  let (tr, r) := body in
  let (tr', c) := cleanup in
  (tr ++ tr', match c with Return _ => r | Raise e => Raise e end).

(** The driver of [Database], with the two operations [execute_update]
    adds: [conn.commit()] and [cursor.rowcount]. *)
Record driver_rw : Type := {
  base : driver;
  commit : result unit;
  rowcount : Z
}.

Section Traced.

Variable d : driver_rw.

Definition with_connection {A} (body : traced A) : traced A :=
  match getconn (base d) with
  | Raise e => ([GetConn], Raise e)
  | Return false =>
      ([GetConn],
       Raise (OtherException "Failed to get connection from pool"))
  | Return true =>
      let (tr, r) :=
        tfinally
          match body with
          | (tr, Return a) => (tr, Return a)
          | (tr, Raise e) =>
              tbind (tr ++ [Rollback], rollback (base d))
                    (fun _ => ([], Raise e))
          end
          (call PutConn (putconn (base d))) in
      (GetConn :: tr, r)
  end.

Definition with_cursor {A} (body : traced A) : traced A :=
  tbind (call Cursor (cursor (base d)))
        (fun _ => tfinally body (call Close (close (base d)))).

Definition set_timeout : str := "SET statement_timeout = '30s'".

Definition effective (params : option (list value))
  : option (list value) :=
  match params with
  | Some (_ :: _) => params
  | _ => None
  end.

Definition run_statement (query : str) (params : option (list value))
  : traced (list row) :=
  tbind (call (Execute set_timeout None)
              (execute (base d) set_timeout None)) (fun _ =>
  tbind (call (Execute query (effective params))
              (execute (base d) query (effective params))) (fun _ =>
  tbind (call FetchAll (fetchall (base d))) (fun results =>
  tbind (call Description
              match description (base d) with
              | Some names => Return names
              | None => Raise (OtherException "TypeError")
              end) (fun column_names =>
  tret (map (dict_zip column_names) results))))).

Definition execute_query (query : str) (params : option (list value))
  : traced (option (list row)) :=
  match with_connection (with_cursor (run_statement query params)) with
  | (tr, Return formatted_results) => (tr, Return (Some formatted_results))
  | (tr, Raise _) => (tr, Return None)
  end.

(** [execute_update]: the statement, then the commit, then the count
    of affected rows; [-1] on any exception. *)
Definition run_update (query : str) (params : option (list value))
  : traced Z :=
  tbind (call (Execute set_timeout None)
              (execute (base d) set_timeout None)) (fun _ =>
  tbind (call (Execute query (effective params))
              (execute (base d) query (effective params))) (fun _ =>
  tbind (call Commit (commit d)) (fun _ =>
  call RowCount (Return (rowcount d))))).

Definition execute_update (query : str) (params : option (list value))
  : traced Z :=
  match with_connection (with_cursor (run_update query params)) with
  | (tr, Return affected_rows) => (tr, Return affected_rows)
  | (tr, Raise _) => (tr, Return (-1)%Z)
  end.

End Traced.

Definition is_execute (o : op) : bool :=
  match o with Execute _ _ => true | _ => false end.

Definition is_op (x o : op) : bool :=
  match x, o with
  | GetConn, GetConn | Cursor, Cursor | FetchAll, FetchAll
  | Description, Description | Commit, Commit | RowCount, RowCount
  | Close, Close | Rollback, Rollback | PutConn, PutConn => true
  | _, _ => false
  end.

Definition count (x : op) (tr : list op) : nat :=
  List.length (filter (is_op x) tr).

End DatabaseTrace.

(** ** [utils.py]: [clean_text] *)

Module UtilsMore.

(** [re.sub(r'\s+', ' ', s)]: every maximal run of blanks becomes one
    space; [in_run] tells that the previous character was a blank. *)
Fixpoint collapse_ws (in_run : bool) (s : str) : str :=
  match s with
  | [] => []
  | c :: s' =>
      if isspace c
      then if in_run then collapse_ws true s'
           else " "%char :: collapse_ws true s'
      else c :: collapse_ws false s'
  end.

(** [s.replace(x, '')] for a single character [x]. *)
Definition remove_char (x : ascii) (s : str) : str :=
  filter (fun c => negb (Ascii.eqb c x)) s.

Definition clean_text (text : str) : str :=
  match text with
  | [] => []
  | _ =>
      let cleaned := collapse_ws false (strip text) in
      let cleaned := remove_char "000"%char cleaned in
      if (len cleaned >? 2000)%Z
      then firstn 2000 cleaned ++ of_string "..."
      else cleaned
  end.

End UtilsMore.

(** ** [openai_service.py]: reading the statement out of the answer *)

Module OpenAI.

Definition fence : str := "```".

(** The text before the first fence and the text after it. *)
Fixpoint split_at_fence (s : str) : option (str * str) :=
  match s with
  | [] => None
  | c :: s' =>
      if SqlParse.starts_with fence s then Some ([], skipn 3 s)
      else match split_at_fence s' with
           | Some (a, b) => Some (c :: a, b)
           | None => None
           end
  end.

(** [(?:sql)?] under IGNORECASE. *)
Definition drop_sql_tag (s : str) : str :=
  if PyStr.eqb (map lower_ascii (firstn 3 s)) "sql" then skipn 3 s else s.

(** [re.search(r'```(?:sql)?\s*(.*?)\s*```', response, DOTALL|IGNORECASE)]
    followed by [match.group(1).strip()]: the trimmed text between the
    first fence, with its optional tag, and the next fence. *)
Definition fenced (response : str) : option str :=
  match split_at_fence response with
  | Some (_, after) =>
      match split_at_fence (drop_sql_tag after) with
      | Some (body, _) => Some (strip body)
      | None => None
      end
  | None => None
  end.

(** [s.strip(';')] *)
Definition strip_semicolons (s : str) : str :=
  rstrip_chars ";" (lstrip_by (fun c => Ascii.eqb c ";"%char) s).

Fixpoint starts_with_codes (p s : list N) : bool :=
  match p, s with
  | [], _ => true
  | x :: p', y :: s' => (N.eqb x y && starts_with_codes p' s')%bool
  | _ :: _, [] => false
  end.

Definition _extract_sql_from_response (response : str) : option str :=
  let sql_query :=
    match fenced response with
    | Some body => body
    | None => strip response
    end in
  let sql_query := strip (strip_semicolons sql_query) in
  if negb (starts_with_codes (codes "SELECT") (upper sql_query))
  then None
  else Some sql_query.

(** [natural_language_to_sql] on the answer of the model, [None] when
    every attempt failed. *)
Definition natural_language_to_sql (answer : option str) : option str :=
  match answer with
  | Some (c :: r) => _extract_sql_from_response (c :: r)
  | _ => None
  end.

End OpenAI.

(** ** [security.py]: [require_valid_session] *)

Module SessionGuard.

Inductive auth_result : Type :=
| Unauthorized : str -> auth_result          (* 401 and its message *)
| Authorized : str -> str -> auth_result     (* user_id, session_id *)
| Raised : Security.exn -> auth_result.

(** The text before the first space. *)
Fixpoint before_space (s : str) : str :=
  match s with
  | [] => []
  | c :: s' => if Ascii.eqb c " "%char then [] else c :: before_space s'
  end.

(** [auth_header.split(' ')[1]] for a header that starts with
    ['Bearer ']: the text between the first space and the next one. *)
Definition bearer_token (auth_header : str) : str :=
  before_space (skipn 7 auth_header).

Section Guard.

Variable hs256 : str -> Security.payload -> str.
(** The compact serialization read back: what [jwt.decode] finds in
    the text of the token. *)
Variable read_token : str -> Security.token.
(** The secret of the [SecurityManager] the decorator creates. *)
Variable jwt_secret : str.

Definition require_valid_session (now : Z) (authorization : option str)
  : auth_result :=
  match authorization with
  | None | Some [] =>
      Unauthorized "Missing or invalid authorization header"
  | Some auth_header =>
      if negb (SqlParse.starts_with "Bearer " auth_header)
      then Unauthorized "Missing or invalid authorization header"
      else
        let token := bearer_token auth_header in
        match Security.validate_session_token hs256 jwt_secret now
                (read_token token) with
        | Raise e => Raised e
        | Return None => Unauthorized "Invalid or expired token"
        | Return (Some payload) =>
            Authorized (Security.user_id payload)
                       (Security.session_id payload)
        end
  end.

End Guard.

End SessionGuard.

(** ** [database.py]: [get_schema_info] *)

Module Schema.

Import Database.

(** A line of a triple-quoted text: its indentation, its text and the
    line end. *)
Definition line (indent : nat) (text : string) : str :=
  repeat " "%char indent ++ of_string text ++ ["010"%char].

Definition table_query : str :=
  ["010"%char]
  ++ line 12 "SELECT "
  ++ line 16 "table_name,"
  ++ line 16 "table_type,"
  ++ line 16 "table_schema"
  ++ line 12 "FROM information_schema.tables "
  ++ line 12 "WHERE table_schema NOT IN ('information_schema', 'pg_catalog')"
  ++ line 12 "ORDER BY table_name;"
  ++ repeat " "%char 12.

Definition column_query : str :=
  ["010"%char]
  ++ line 16 "SELECT "
  ++ line 20 "column_name,"
  ++ line 20 "data_type,"
  ++ line 20 "is_nullable,"
  ++ line 20 "column_default,"
  ++ line 20 "character_maximum_length"
  ++ line 16 "FROM information_schema.columns "
  ++ line 16 "WHERE table_name = %s AND table_schema = %s"
  ++ line 16 "ORDER BY ordinal_position;"
  ++ repeat " "%char 16.

Definition value_eqb (a b : value) : bool :=
  match a, b with
  | VNull, VNull => true
  | VInt x, VInt y => Z.eqb x y
  | VText x, VText y => PyStr.eqb x y
  | _, _ => false
  end.

Record table_info : Type := {
  type : value;
  schema : value;
  columns : list row;
  column_count : nat
}.

(** A dictionary keyed by table name, in insertion order. *)
Definition table_dict := list (value * table_info).

Fixpoint set_item (d : table_dict) (k : value) (v : table_info)
  : table_dict :=
  match d with
  | [] => [(k, v)]
  | (k', v') :: d' =>
      if value_eqb k' k then (k', v) :: d' else (k', v') :: set_item d' k v
  end.

Record schema_info : Type := {
  tables : table_dict;
  views : table_dict;
  total_tables : nat;
  total_columns : nat
}.

Definition empty_schema : schema_info :=
  {| tables := []; views := []; total_tables := 0; total_columns := 0 |}.

(** [row[key]]: [None] stands for [KeyError]. *)
Fixpoint getitem (r : row) (key : str) : option value :=
  match r with
  | [] => None
  | (k, v) :: r' => if PyStr.eqb k key then Some v else getitem r' key
  end.

Section GetSchemaInfo.

(** [self.execute_query], which returns [None] or the rows. *)
Variable execute_query : str -> option (list value) -> option (list row).

(** The body of the loop for one row of the table query. *)
Definition add_table (s : schema_info) (table : row)
  : option schema_info :=
  match getitem table "table_name", getitem table "table_type",
        getitem table "table_schema" with
  | Some table_name, Some table_type, Some table_schema =>
      let columns :=
        execute_query column_query (Some [table_name; table_schema]) in
      let table_info :=
        {| type := table_type;
           schema := table_schema;
           columns := match columns with Some c => c | None => [] end;
           column_count :=
             match columns with
             | Some c => List.length c
             | None => 0
             end |} in
      Some
        (if value_eqb table_type (VText "BASE TABLE")
         then {| tables := set_item (tables s) table_name table_info;
                 views := views s;
                 total_tables := total_tables s;
                 total_columns :=
                   total_columns s + column_count table_info |}
         else {| tables := tables s;
                 views := set_item (views s) table_name table_info;
                 total_tables := total_tables s;
                 total_columns :=
                   total_columns s + column_count table_info |})
  | _, _, _ => None
  end.

Fixpoint add_tables (s : schema_info) (rows : list row)
  : option schema_info :=
  match rows with
  | [] => Some s
  | table :: rows' =>
      match add_table s table with
      | Some s' => add_tables s' rows'
      | None => None
      end
  end.

(** [None] stands for the dictionary [{'error': ...}] of the
    [except] clause. *)
Definition get_schema_info : option schema_info :=
  match execute_query table_query None with
  | None | Some [] => Some empty_schema
  | Some rows =>
      match add_tables empty_schema rows with
      | Some s =>
          Some {| tables := tables s;
                  views := views s;
                  total_tables := List.length (tables s);
                  total_columns := total_columns s |}
      | None => None
      end
  end.

End GetSchemaInfo.

(** The number of columns the column query reports for a row of the
    table query. *)
Definition columns_of
           (execute_query : str -> option (list value) -> option (list row))
           (table : row) : nat :=
  match getitem table "table_name", getitem table "table_schema" with
  | Some n, Some s =>
      match execute_query column_query (Some [n; s]) with
      | Some c => List.length c
      | None => 0
      end
  | _, _ => 0
  end.

End Schema.

(** ** Further examples *)

Module Samples.

(** A database that answers every statement with the same two rows. *)
Definition answering_driver : Database.driver :=
  {| Database.getconn := Return true;
     Database.cursor := Return tt;
     Database.execute := fun _ _ => Return tt;
     Database.fetchall :=
       Return [[Database.VInt 1; Database.VText "ann"];
               [Database.VInt 2; Database.VText "bob"]];
     Database.description := Some [of_string "id"; of_string "name"];
     Database.close := Return tt;
     Database.rollback := Return tt;
     Database.putconn := Return tt |}.

(** The same database, refusing to commit. *)
Definition no_commit_driver : DatabaseTrace.driver_rw :=
  {| DatabaseTrace.base := answering_driver;
     DatabaseTrace.commit := Raise (Database.Psycopg2Error "read-only");
     DatabaseTrace.rowcount := 3 |}.

(** A catalog with one table and one view, two columns each. *)
Definition sample_tables : list Database.row :=
  [[(of_string "table_name", Database.VText "orders");
    (of_string "table_type", Database.VText "BASE TABLE");
    (of_string "table_schema", Database.VText "public")];
   [(of_string "table_name", Database.VText "recent_orders");
    (of_string "table_type", Database.VText "VIEW");
    (of_string "table_schema", Database.VText "public")]].

Definition sample_catalog (q : str) (params : option (list Database.value))
  : option (list Database.row) :=
  match params with
  | None => Some sample_tables
  | Some _ =>
      Some [[(of_string "column_name", Database.VText "id")];
            [(of_string "column_name", Database.VText "total")]]
  end.

End Samples.
(** * Properties *)

(** ** Characters *)

Lemma all_ascii_complete (x : ascii) : In x all_ascii.
Proof.
  unfold all_ascii. rewrite <- (ascii_nat_embedding x).
  apply in_map, in_seq. pose proof (nat_ascii_bounded x). lia.
Qed.

Lemma ascii_forall (P : ascii -> bool) :
  forallb P all_ascii = true -> forall x, P x = true.
Proof.
  intros H x. rewrite forallb_forall in H. apply H, all_ascii_complete.
Qed.

Lemma ascii_eqb_true (a b : ascii) : Ascii.eqb a b = true <-> a = b.
Proof. apply Ascii.eqb_eq. Qed.

Lemma chr_match_icase (c x : ascii) :
  chr_match true c x = true <-> lower_ascii c = lower_ascii x.
Proof. unfold chr_match. apply Ascii.eqb_eq. Qed.

(** A character equal to an ASCII letter up to case is a word character,
    and neither a blank nor a digit. *)
Lemma letter_fold_class (c x : ascii) :
  is_letter c = true -> lower_ascii c = lower_ascii x ->
  isword x = true /\ isspace x = false /\ isdecimal x = false.
Proof.
  intros Hc Hx. apply Ascii.eqb_eq in Hx.
  pose (P := fun c => forallb (fun x =>
     implb (is_letter c && Ascii.eqb (lower_ascii c) (lower_ascii x))
           (isword x && negb (isspace x) && negb (isdecimal x))) all_ascii).
  assert (HP : forallb P all_ascii = true) by (vm_compute; reflexivity).
  pose proof (ascii_forall P HP c) as H1. unfold P in H1.
  pose proof (ascii_forall _ H1 x) as H2. cbv beta in H2.
  rewrite Hc, Hx in H2. simpl in H2.
  destruct (isword x), (isspace x), (isdecimal x); simpl in H2;
    try discriminate; auto.
Qed.

Lemma decimal_class (x : ascii) :
  isdecimal x = true -> isword x = true /\ isspace x = false.
Proof.
  intros Hx.
  pose proof (ascii_forall
    (fun x => implb (isdecimal x) (isword x && negb (isspace x)))
    ltac:(vm_compute; reflexivity) x) as H.
  cbv beta in H. rewrite Hx in H. simpl in H.
  destruct (isword x), (isspace x); simpl in H; try discriminate; auto.
Qed.

Lemma space_not_word (x : ascii) : isspace x = true -> isword x = false.
Proof.
  intros Hx.
  pose proof (ascii_forall (fun x => implb (isspace x) (negb (isword x)))
    ltac:(vm_compute; reflexivity) x) as H.
  cbv beta in H. rewrite Hx in H. simpl in H.
  destruct (isword x); simpl in H; try discriminate; auto.
Qed.

(** ** The matcher computes the declarative reading *)

Lemma last_char_nil prev : last_char prev [] = prev.
Proof. reflexivity. Qed.

Lemma last_char_snoc prev (w : str) (c : ascii) :
  last_char prev (w ++ [c]) = Some c.
Proof. unfold last_char. rewrite rev_app_distr. reflexivity. Qed.

Lemma last_char_cons prev (c : ascii) (w : str) :
  last_char prev (c :: w) = last_char (Some c) w.
Proof.
  destruct w as [|d w] using rev_ind.
  - reflexivity.
  - rewrite app_comm_cons, !last_char_snoc. reflexivity.
Qed.

Lemma last_char_app prev (u v : str) :
  last_char prev (u ++ v) = last_char (last_char prev u) v.
Proof.
  revert prev. induction u as [|c u IH]; intros prev.
  - reflexivity.
  - simpl. rewrite !last_char_cons. apply IH.
Qed.

Lemma star_k_spec p k prev s :
  star_k p k prev s = true <->
  exists w rest, s = w ++ rest /\ forallb p w = true
                 /\ k (last_char prev w) rest = true.
Proof.
  revert prev. induction s as [|x s IH]; intros prev; simpl.
  - split.
    + destruct (k prev []) eqn:E; [|discriminate]. intros _.
      exists [], []. auto.
    + intros (w & rest & Hs & _ & Hk).
      symmetry in Hs. apply app_eq_nil in Hs as [-> ->].
      rewrite last_char_nil in Hk. now rewrite Hk.
  - split.
    + destruct (k prev (x :: s)) eqn:E.
      * intros _. exists [], (x :: s). auto.
      * destruct (p x) eqn:Hp; [|discriminate]. intros H.
        apply IH in H as (w & rest & -> & Hw & Hk).
        exists (x :: w), rest. simpl. rewrite Hp, last_char_cons. auto.
    + intros (w & rest & Hs & Hw & Hk).
      destruct w as [|y w].
      * simpl in Hs. subst rest. rewrite last_char_nil in Hk. now rewrite Hk.
      * simpl in Hs. injection Hs as -> ->.
        simpl in Hw. apply andb_true_iff in Hw as [Hp Hw].
        rewrite Hp. destruct (k prev (y :: w ++ rest)); [reflexivity|].
        apply IH. exists w, rest. rewrite last_char_cons in Hk. auto.
Qed.

Theorem match_k_spec icase r : forall prev s k,
  match_k icase r prev s k = true <->
  exists w rest, s = w ++ rest /\ matches icase r prev w rest
                 /\ k (last_char prev w) rest = true.
Proof.
  induction r as [|c|p|p|a IHa b IHb|a IHa b IHb|]; intros prev s k; simpl.
  - split.
    + intros H. exists [], s. auto.
    + intros (w & rest & -> & -> & Hk). exact Hk.
  - destruct s as [|x s].
    + split; [discriminate|].
      intros (w & rest & Hs & (y & -> & _) & _). discriminate.
    + split.
      * destruct (chr_match icase c x) eqn:E; [|discriminate]. intros Hk.
        exists [x], s. repeat split; eauto.
      * intros (w & rest & Hs & (y & -> & Hy) & Hk).
        injection Hs as -> ->. now rewrite Hy.
  - destruct s as [|x s].
    + split; [discriminate|].
      intros (w & rest & Hs & (y & -> & _) & _). discriminate.
    + split.
      * destruct (p x) eqn:E; [|discriminate]. intros Hk.
        exists [x], s. repeat split; eauto.
      * intros (w & rest & Hs & (y & -> & Hy) & Hk).
        injection Hs as -> ->. now rewrite Hy.
  - apply star_k_spec.
  - rewrite IHa. split.
    + intros (w1 & rest1 & -> & H1 & Hk). apply IHb in Hk.
      destruct Hk as (w2 & rest & -> & H2 & Hk).
      exists (w1 ++ w2), rest. rewrite app_assoc. split; [reflexivity|].
      split; [exists w1, w2; auto|]. now rewrite last_char_app.
    + intros (w & rest & -> & (w1 & w2 & -> & H1 & H2) & Hk).
      exists w1, (w2 ++ rest). rewrite app_assoc. split; [reflexivity|].
      split; [exact H1|]. apply IHb. exists w2, rest.
      rewrite last_char_app in Hk. auto.
  - split.
    + destruct (match_k icase a prev s k) eqn:E.
      * intros _. apply IHa in E as (w & rest & ? & ? & ?).
        exists w, rest. auto.
      * intros H. apply IHb in H as (w & rest & ? & ? & ?).
        exists w, rest. auto.
    + intros (w & rest & Hs & [H|H] & Hk).
      * assert (E : match_k icase a prev s k = true)
          by (apply IHa; exists w, rest; auto).
        now rewrite E.
      * destruct (match_k icase a prev s k); [reflexivity|].
        apply IHb. exists w, rest. auto.
  - split.
    + destruct (at_boundary prev s) eqn:E; [|discriminate]. intros Hk.
      exists [], s. auto.
    + intros (w & rest & -> & (-> & Hb) & Hk). simpl.
      simpl in Hb. now rewrite Hb.
Qed.

Theorem search_from_spec icase r : forall s prev,
  search_from icase r prev s = true <->
  exists pre w rest, s = pre ++ w ++ rest
                     /\ matches icase r (last_char prev pre) w rest.
Proof.
  assert (Hhere : forall prev s, match_here icase r prev s = true <->
            exists w rest, s = w ++ rest /\ matches icase r prev w rest).
  { intros prev s. unfold match_here. rewrite match_k_spec. split.
    - intros (w & rest & ? & ? & _). eauto.
    - intros (w & rest & ? & ?). exists w, rest. auto. }
  induction s as [|x s IH]; intros prev; simpl.
  - split.
    + destruct (match_here icase r prev []) eqn:E; [|discriminate].
      intros _. apply Hhere in E as (w & rest & ? & ?).
      exists [], w, rest. auto.
    + intros (pre & w & rest & Hs & H).
      symmetry in Hs. apply app_eq_nil in Hs as [-> Hs].
      assert (E : match_here icase r prev [] = true)
        by (apply Hhere; exists w, rest; auto).
      now rewrite E.
  - split.
    + destruct (match_here icase r prev (x :: s)) eqn:E.
      * intros _. apply Hhere in E as (w & rest & ? & ?).
        exists [], w, rest. auto.
      * intros H. apply IH in H as (pre & w & rest & -> & H).
        exists (x :: pre), w, rest. rewrite last_char_cons. auto.
    + intros (pre & w & rest & Hs & H).
      destruct pre as [|y pre].
      * assert (E : match_here icase r prev (x :: s) = true)
          by (apply Hhere; exists w, rest; auto).
        now rewrite E.
      * simpl in Hs. injection Hs as -> ->.
        destruct (match_here icase r prev (y :: pre ++ w ++ rest));
          [reflexivity|].
        apply IH. exists pre, w, rest. rewrite last_char_cons in H. auto.
Qed.

Corollary search_spec icase r s :
  search icase r s = true <->
  exists pre w rest, s = pre ++ w ++ rest
                     /\ matches icase r (last_char None pre) w rest.
Proof. apply search_from_spec. Qed.

(** ** Literals and keywords *)

Lemma matches_lit kw : forall prev w rest,
  matches true (lit kw) prev w rest <-> same_ignoring_case kw w.
Proof.
  unfold same_ignoring_case.
  induction kw as [|c kw IH]; intros prev w rest; simpl.
  - split.
    + intros ->. constructor.
    + intros H. inversion H. reflexivity.
  - split.
    + intros (w1 & w2 & -> & (x & -> & Hx) & H2).
      apply IH in H2. apply chr_match_icase in Hx.
      simpl. constructor; assumption.
    + intros H. inversion H as [|? y ? w' Hy Hw]; subst.
      exists [y], w'. split; [reflexivity|]. split.
      * exists y. split; [reflexivity|]. now apply chr_match_icase.
      * now apply IH.
Qed.

Lemma same_case_length (a b : str) :
  same_ignoring_case a b -> List.length a = List.length b.
Proof. apply Forall2_length. Qed.

(** A string equal up to case to a non-empty string of letters starts and
    ends with a word character, and starts with neither a blank nor a
    digit. *)
Lemma same_case_ends (kw w : str) :
  kw <> [] -> forallb is_letter kw = true -> same_ignoring_case kw w ->
  (exists x w', w = x :: w' /\ isword x = true /\ isspace x = false
                /\ isdecimal x = false)
  /\ (exists w' x, w = w' ++ [x] /\ isword x = true).
Proof.
  intros Hne Hl H. split.
  - destruct H as [|c x kw' w' Hx H]; [congruence|].
    simpl in Hl. apply andb_true_iff in Hl as [Hc _].
    destruct (letter_fold_class c x Hc Hx) as (? & ? & ?).
    exists x, w'. auto.
  - destruct kw as [|c kw'] using rev_ind; [congruence|].
    apply Forall2_app_inv_l in H as (w1 & w2 & H1 & H2 & ->).
    inversion H2 as [|? x ? w3 Hx H3]; subst. inversion H3; subst.
    rewrite forallb_app in Hl. apply andb_true_iff in Hl as [_ Hc].
    simpl in Hc. rewrite andb_true_r in Hc.
    destruct (letter_fold_class c x Hc Hx) as (? & _).
    exists w1, x. auto.
Qed.

Lemma keyword_search (kw text : str) :
  kw <> [] -> forallb is_letter kw = true ->
  search true (Utils.keyword_pattern kw) text = true
  <-> whole_word_occurrence kw text.
Proof.
  intros Hne Hl. rewrite search_spec. unfold whole_word_occurrence.
  unfold Utils.keyword_pattern, cats. simpl. split.
  - intros (pre & w & rest & -> & w1 & w2 & -> & (-> & Hb1)
            & w3 & w4 & -> & Hlit & w5 & w6 & -> & (-> & Hb2) & ->).
    apply matches_lit in Hlit. simpl in *. rewrite app_nil_r in *.
    destruct (same_case_ends Hne Hl Hlit)
      as ((x & w' & -> & Hx & _) & (w'' & y & E & Hy)).
    exists pre, (x :: w'), rest. repeat split; auto.
    + unfold at_boundary in Hb1. simpl in Hb1. rewrite Hx in Hb1.
      destruct (is_word_opt (last_char None pre)); [discriminate|reflexivity].
    + rewrite E in Hb2. unfold at_boundary in Hb2.
      rewrite last_char_snoc in Hb2. simpl in Hb2. rewrite Hy in Hb2.
      destruct (is_word_opt (hd_error rest)); [discriminate|reflexivity].
  - intros (pre & w & post & -> & Hw & Hpre & Hpost).
    destruct (same_case_ends Hne Hl Hw)
      as ((x & w' & E1 & Hx & _) & (w'' & y & E2 & Hy)).
    exists pre, w, post. split; [reflexivity|].
    exists [], w. split; [reflexivity|]. split.
    { split; [reflexivity|]. unfold at_boundary. rewrite Hpre.
      rewrite E1. simpl. now rewrite Hx. }
    exists w, []. split; [now rewrite app_nil_r|]. split.
    { now apply matches_lit. }
    exists [], []. split; [reflexivity|]. split; [|reflexivity].
    split; [reflexivity|]. simpl. unfold at_boundary. rewrite Hpost.
    rewrite E2, last_char_snoc. simpl. now rewrite Hy.
Qed.

Lemma deny_list_same_words (kw : str) :
  In kw Utils.dangerous_keyword_names <-> In kw deny_list.
Proof.
  unfold Utils.dangerous_keyword_names, deny_list. simpl. intuition.
Qed.

Lemma deny_list_letters (kw : str) :
  In kw Utils.dangerous_keyword_names ->
  kw <> [] /\ forallb is_letter kw = true.
Proof.
  unfold Utils.dangerous_keyword_names. simpl.
  intros H. repeat (destruct H as [<-|H]; [split; [discriminate|reflexivity]|]).
  contradiction.
Qed.

(** C3: [_contains_dangerous_keywords] answers true exactly on the texts
    that contain one of the 24 deny-listed keywords as a whole word, in any
    case; an identifier such as [created_at], which only contains a keyword
    as a substring, is not a match. *)
Theorem contains_dangerous_keywords_whole_word :
  (forall text : str,
      Utils._contains_dangerous_keywords text = true
      <-> contains_denied_word text)
  /\ List.length deny_list = 24
  /\ NoDup deny_list
  /\ Utils._contains_dangerous_keywords "created_at" = false
  /\ Utils._contains_dangerous_keywords
       "SELECT created_at FROM orders" = false
  /\ Utils._contains_dangerous_keywords "select 1; Drop table t" = true.
Proof.
  split; [|split; [reflexivity|split; [|repeat split; vm_compute; reflexivity]]].
  - intros text. unfold Utils._contains_dangerous_keywords,
      Utils.dangerous_keywords, contains_denied_word.
    rewrite existsb_exists. split.
    + intros (r & Hr & Hs). apply in_map_iff in Hr as (kw & <- & Hkw).
      destruct (deny_list_letters Hkw) as [Hne Hl].
      exists kw. split; [now apply deny_list_same_words|].
      now apply keyword_search.
    + intros (kw & Hkw & Hocc). apply deny_list_same_words in Hkw.
      destruct (deny_list_letters Hkw) as [Hne Hl].
      exists (Utils.keyword_pattern kw). split; [now apply in_map|].
      now apply keyword_search.
  - unfold deny_list. simpl.
    repeat (constructor; [simpl; intuition discriminate|]). constructor.
Qed.

(** ** The LIMIT pattern *)

Lemma match_here_spec icase r prev s :
  match_here icase r prev s = true <->
  exists w rest, s = w ++ rest /\ matches icase r prev w rest.
Proof.
  unfold match_here. rewrite match_k_spec. split.
  - intros (w & rest & ? & ? & _). eauto.
  - intros (w & rest & ? & ?). exists w, rest. auto.
Qed.

Lemma matches_plus p prev w rest :
  matches true (Plus p) prev w rest <-> w <> [] /\ forallb p w = true.
Proof.
  simpl. split.
  - intros (w1 & w2 & -> & (x & -> & Hx) & Hw2). simpl.
    rewrite Hx, Hw2. split; [discriminate|reflexivity].
  - intros [Hne Hw]. destruct w as [|x w]; [congruence|].
    simpl in Hw. apply andb_true_iff in Hw as [Hx Hw].
    exists [x], w. repeat split; eauto.
Qed.

Lemma digit_run (post : str) :
  exists ds post', post = ds ++ post' /\ forallb isdecimal ds = true
                   /\ not_a_digit (hd_error post').
Proof.
  induction post as [|c post (ds & post' & -> & Hds & Hpost)].
  - exists [], []. simpl. auto.
  - destruct (isdecimal c) eqn:E.
    + exists (c :: ds), post'. simpl. rewrite E, Hds. auto.
    + exists [], (c :: ds ++ post'). simpl. auto.
Qed.

Lemma limit_letters :
  of_string "LIMIT" <> [] /\ forallb is_letter (of_string "LIMIT") = true.
Proof. split; [discriminate|reflexivity]. Qed.

Lemma boundary_before_word prev (x : ascii) (s : str) :
  isword x = true ->
  at_boundary prev (x :: s) = negb (is_word_opt prev).
Proof.
  intros Hx. unfold at_boundary. simpl. rewrite Hx.
  now destruct (is_word_opt prev).
Qed.

(** The pattern [\bLIMIT\s+\d+] finds exactly the LIMIT clauses. *)
Lemma limit_search (s : str) :
  search true Utils.pat_limit s = true <-> has_limit_clause s.
Proof.
  destruct limit_letters as [Hne Hl].
  rewrite search_spec. unfold has_limit_clause, limit_clause.
  unfold Utils.pat_limit, cats.
  change (fold_right Cat Eps [Bnd; lit "LIMIT"; Plus space; Plus digit])
    with (Cat Bnd (Cat (lit "LIMIT") (Cat (Plus space) (Cat (Plus digit) Eps)))).
  split.
  - intros (pre & w & rest & -> & H).
    cbn [matches] in H.
    destruct H as (w1 & w2 & -> & (-> & Hb) & kw & w3 & -> & Hkw
                   & H3).
    apply matches_lit in Hkw.
    destruct H3 as (ws & w4 & -> & Hws & H4).
    change (exists w1 w2, ws = w1 ++ w2 /\
             (exists x, w1 = [x] /\ space x = true) /\
             forallb space w2 = true)
      with (matches true (Plus space) (last_char (last_char (last_char None pre) []) kw) ws (w4 ++ rest)) in Hws.
    apply matches_plus in Hws as [Hws1 Hws2].
    destruct H4 as (ds & w5 & -> & Hds & ->).
    change (exists w1 w2, ds = w1 ++ w2 /\
             (exists x, w1 = [x] /\ digit x = true) /\
             forallb digit w2 = true)
      with (matches true (Plus digit) (last_char (last_char (last_char (last_char None pre) []) kw) ws) ds ([] ++ rest)) in Hds.
    apply matches_plus in Hds as [Hds1 Hds2].
    destruct (digit_run rest) as (ds2 & post & -> & Hds3 & Hpost).
    destruct (same_case_ends Hne Hl Hkw) as ((x & kw' & -> & Hx & _) & _).
    simpl in Hb. rewrite boundary_before_word in Hb by exact Hx.
    exists (digits_value (ds ++ ds2)), pre, (x :: kw'), ws, (ds ++ ds2), post.
    repeat split; auto.
    + simpl. rewrite !app_nil_r, <- !app_assoc. reflexivity.
    + now destruct (is_word_opt (last_char None pre)).
    + destruct ds; [congruence|discriminate].
    + rewrite forallb_app. unfold digit in Hds2. now rewrite Hds2, Hds3.
  - intros (n & pre & kw & ws & ds & post & -> & Hkw & Hpre & Hws1 & Hws2
            & Hds1 & Hds2 & _ & _).
    destruct (same_case_ends Hne Hl Hkw) as ((x & kw' & E & Hx & _) & _).
    exists pre, (kw ++ ws ++ ds), post. split.
    { now rewrite <- !app_assoc. }
    cbn [matches].
    exists [], (kw ++ ws ++ ds). split; [reflexivity|]. split.
    { split; [reflexivity|]. rewrite E. simpl.
      rewrite boundary_before_word by exact Hx. now rewrite Hpre. }
    exists kw, (ws ++ ds). split; [reflexivity|]. split.
    { now apply matches_lit. }
    exists ws, ds. split; [reflexivity|]. split.
    { apply (matches_plus space). auto. }
    exists ds, []. split; [now rewrite app_nil_r|]. split; [|reflexivity].
    apply (matches_plus digit). auto.
Qed.

(** ** Stripping *)

Lemma lstrip_by_snoc p (l : str) (c : ascii) :
  lstrip_by p (l ++ [c]) =
  match lstrip_by p l with
  | [] => if p c then [] else [c]
  | r => r ++ [c]
  end.
Proof.
  induction l as [|x l IH]; simpl.
  - reflexivity.
  - destruct (p x); [exact IH|reflexivity].
Qed.

Lemma rstrip_by_cons p (c : ascii) (s : str) :
  rstrip_by p (c :: s) =
  match rstrip_by p s with
  | [] => if p c then [] else [c]
  | r => c :: r
  end.
Proof.
  unfold rstrip_by. simpl. rewrite lstrip_by_snoc.
  destruct (lstrip_by p (rev s)) as [|y r] eqn:E; simpl.
  - now destruct (p c).
  - rewrite rev_app_distr. simpl.
    destruct (rev r ++ [y]) eqn:E'; [|reflexivity].
    apply app_eq_nil in E' as [_ E']. discriminate.
Qed.

(** The reversal-based [rstrip(';')] removes exactly the trailing
    terminators. *)
Lemma rstrip_terminators (s : str) :
  rstrip_chars ";" s = without_trailing_terminators s.
Proof.
  unfold rstrip_chars. induction s as [|c s IH].
  - reflexivity.
  - rewrite rstrip_by_cons, IH. simpl.
    now rewrite orb_false_r.
Qed.

Lemma rstrip_by_split p (s : str) :
  exists t, s = rstrip_by p s ++ t /\ forallb p t = true
            /\ (forall r x, rstrip_by p s = r ++ [x] -> p x = false).
Proof.
  induction s as [|c s (t & Hs & Ht & Hlast)].
  - exists []. repeat split. intros r x H.
    destruct r; discriminate.
  - rewrite rstrip_by_cons. destruct (rstrip_by p s) as [|y r'] eqn:E.
    + destruct (p c) eqn:Hc.
      * exists (c :: t). simpl in *. rewrite Hc, Ht. repeat split.
        { now rewrite Hs at 1. }
        intros r x H. destruct r; discriminate.
      * exists t. simpl in *. repeat split; auto.
        { now rewrite Hs at 1. }
        intros r x H. destruct r as [|? [|]]; try discriminate.
        now injection H as <-.
    + exists t. repeat split; auto.
      { simpl. now rewrite Hs at 1. }
      intros r x H. destruct r as [|z r].
      * discriminate.
      * injection H as -> H. eapply Hlast. exact H.
Qed.

Lemma without_trailing_terminators_split (s : str) :
  exists t, s = without_trailing_terminators s ++ t
            /\ Forall (fun c => c = ";"%char) t
            /\ (forall r x, without_trailing_terminators s = r ++ [x] ->
                            x <> ";"%char).
Proof.
  rewrite <- rstrip_terminators. unfold rstrip_chars.
  destruct (rstrip_by_split (fun c => existsb (Ascii.eqb c) (of_string ";")) s)
    as (t & Hs & Ht & Hlast).
  exists t. repeat split; auto.
  - apply Forall_forall. intros c Hc. rewrite forallb_forall in Ht.
    specialize (Ht c Hc). simpl in Ht. rewrite orb_false_r in Ht.
    now apply Ascii.eqb_eq.
  - intros r x H Hx. specialize (Hlast r x H). subst x. discriminate.
Qed.

(** ** [_ensure_limit_clause] *)

Lemma ensure_limit_unchanged (s : str) :
  has_limit_clause s -> Utils._ensure_limit_clause s = s.
Proof.
  intros H. apply limit_search in H. unfold Utils._ensure_limit_clause.
  now rewrite H.
Qed.

Lemma ensure_limit_appended (s : str) :
  ~ has_limit_clause s ->
  Utils._ensure_limit_clause s =
  without_trailing_terminators s ++ of_string " LIMIT 100".
Proof.
  intros H. unfold Utils._ensure_limit_clause.
  destruct (search true Utils.pat_limit s) eqn:E.
  - apply limit_search in E. contradiction.
  - now rewrite rstrip_terminators.
Qed.

Lemma appended_limit_clause (p : str) :
  limit_clause (p ++ of_string " LIMIT 100") 100.
Proof.
  exists (p ++ of_string " "), (of_string "LIMIT"), (of_string " "),
         (of_string "100"), [].
  repeat split; try discriminate; try reflexivity.
  - now rewrite <- app_assoc.
  - repeat constructor.
  - change (of_string " ") with [" "%char]. now rewrite last_char_snoc.
Qed.

Lemma ensure_limit_has_clause (s : str) :
  has_limit_clause (Utils._ensure_limit_clause s).
Proof.
  unfold Utils._ensure_limit_clause.
  destruct (search true Utils.pat_limit s) eqn:E.
  - now apply limit_search.
  - exists 100%N. apply appended_limit_clause.
Qed.

(** C5: a text that already contains a clause [LIMIT n], in any case and
    for any [n], also above 100, is returned unchanged; a text without one
    is returned with its trailing statement terminators removed and
    [ LIMIT 100] appended. *)
Theorem ensure_limit_clause_behaviour (s : str) :
  (forall n, limit_clause s n -> Utils._ensure_limit_clause s = s)
  /\ ((forall n, ~ limit_clause s n) ->
      Utils._ensure_limit_clause s =
      without_trailing_terminators s ++ of_string " LIMIT 100").
Proof.
  split.
  - intros n H. apply ensure_limit_unchanged. now exists n.
  - intros H. apply ensure_limit_appended. intros [n Hn]. exact (H n Hn).
Qed.

(** C6: [_ensure_limit_clause] is idempotent. *)
Theorem ensure_limit_clause_idempotent (s : str) :
  Utils._ensure_limit_clause (Utils._ensure_limit_clause s)
  = Utils._ensure_limit_clause s.
Proof.
  apply ensure_limit_unchanged, ensure_limit_has_clause.
Qed.

Lemma ensure_limit_clause_behaviour_witness :
  Utils._ensure_limit_clause "SELECT * FROM t LIMIT 10000"
  = of_string "SELECT * FROM t LIMIT 10000"
  /\ Utils._ensure_limit_clause "SELECT 1;" = of_string "SELECT 1 LIMIT 100".
Proof.
  split.
  - apply (proj1 (ensure_limit_clause_behaviour
                    (of_string "SELECT * FROM t LIMIT 10000")) 10000%N).
    exists (of_string "SELECT * FROM t "), (of_string "LIMIT"),
           (of_string " "), (of_string "10000"), [].
    repeat split; try discriminate; try reflexivity. repeat constructor.
  - rewrite (proj2 (ensure_limit_clause_behaviour (of_string "SELECT 1;"))).
    + reflexivity.
    + intros n H.
      assert (E : search true Utils.pat_limit (of_string "SELECT 1;") = true)
        by (apply limit_search; exists n; exact H).
      vm_compute in E. discriminate E.
Defined.

(** ** LIMIT clauses survive trimming *)

Lemma limit_clause_lstrip (s : str) (n : N) :
  limit_clause s n -> limit_clause (lstrip_by isspace s) n.
Proof.
  destruct limit_letters as [Hne Hl].
  induction s as [|c s IH]; intros H; simpl; [exact H|].
  destruct (isspace c) eqn:Hc; [|exact H].
  apply IH. clear IH.
  destruct H as (pre & kw & ws & ds & post & Hs & Hkw & Hpre & Hrest).
  destruct (same_case_ends Hne Hl Hkw) as ((x & kw' & -> & _ & Hx & _) & _).
  destruct pre as [|y pre].
  - simpl in Hs. injection Hs as -> _. congruence.
  - simpl in Hs. injection Hs as -> ->.
    exists pre, (x :: kw'), ws, ds, post.
    split; [reflexivity|]. split; [exact Hkw|]. split; [|exact Hrest].
    rewrite last_char_cons in Hpre.
    destruct pre as [|z pre] using rev_ind; [reflexivity|].
    now rewrite last_char_snoc in *.
Qed.

Lemma limit_clause_rstrip (s : str) (n : N) :
  limit_clause s n -> limit_clause (rstrip_by isspace s) n.
Proof.
  intros (pre & kw & ws & ds & post & Hs & Hkw & Hpre & Hws1 & Hws2
          & Hds1 & Hds2 & Hpost & Hn).
  destruct (rstrip_by_split isspace s) as (t & Hsplit & Ht & _).
  set (r := rstrip_by isspace s) in *.
  assert (Hs' : (pre ++ kw ++ ws ++ ds) ++ post = r ++ t).
  { rewrite <- Hsplit, Hs. now rewrite <- !app_assoc. }
  apply app_eq_app in Hs' as [l [[Ha Hb]|[Ha Hb]]].
  - (* the clause would end inside the stripped blanks *)
    destruct l as [|z l] using rev_ind.
    + rewrite app_nil_r in Ha. simpl in Hb.
      exists pre, kw, ws, ds, []. rewrite app_nil_r.
      repeat split; auto.
    + exfalso. clear IHl.
      destruct ds as [|e ds] using rev_ind; [congruence|]. clear IHds.
      rewrite !app_assoc in Ha. apply app_inj_tail in Ha as [_ ->].
      rewrite forallb_app in Hds2. apply andb_true_iff in Hds2 as [_ Hz].
      simpl in Hz. rewrite andb_true_r in Hz.
      rewrite Hb, !forallb_app in Ht. simpl in Ht.
      apply andb_true_iff in Ht as [Ht _].
      apply andb_true_iff in Ht as [_ Ht]. rewrite andb_true_r in Ht.
      destruct (decimal_class z Hz). congruence.
  - exists pre, kw, ws, ds, l. rewrite Ha, <- !app_assoc.
    repeat split; auto.
    destruct l as [|z l]; [exact I|]. rewrite Hb in Hpost. exact Hpost.
Qed.

Lemma limit_clause_strip (s : str) (n : N) :
  limit_clause s n -> limit_clause (strip s) n.
Proof.
  intros H. unfold strip. now apply limit_clause_rstrip, limit_clause_lstrip.
Qed.

Lemma lstrip_keeps_suffix p (a b : str) (x : ascii) :
  p x = false -> exists q, lstrip_by p (a ++ x :: b) = q ++ x :: b.
Proof.
  intros Hx. induction a as [|c a [q IH]]; simpl.
  - rewrite Hx. now exists [].
  - destruct (p c).
    + now exists q.
    + now exists (c :: a).
Qed.

Lemma rstrip_by_keeps p (l : str) (x : ascii) :
  p x = false -> rstrip_by p (l ++ [x]) = l ++ [x].
Proof.
  intros Hx. unfold rstrip_by. rewrite rev_app_distr. simpl.
  rewrite Hx. simpl. now rewrite rev_involutive.
Qed.

Lemma strip_appended_limit (p : str) :
  ends_with (of_string "LIMIT 100") (strip (p ++ of_string " LIMIT 100")).
Proof.
  unfold strip, ends_with.
  change (of_string " LIMIT 100")
    with ([" "%char] ++ "L"%char :: of_string "IMIT 100").
  rewrite app_assoc.
  destruct (@lstrip_keeps_suffix isspace (p ++ [" "%char])
              (of_string "IMIT 100") "L"%char eq_refl) as [q ->].
  exists q.
  change ("L"%char :: of_string "IMIT 100")
    with (of_string "LIMIT 10" ++ ["0"%char]).
  rewrite app_assoc. rewrite rstrip_by_keeps by reflexivity.
  now rewrite <- app_assoc.
Qed.

(** ** [sanitize_sql] *)

(** What acceptance by [sanitize_sql] amounts to, for any parser and
    formatter. *)
Lemma sanitize_sql_accepts parse fmt (s out : str) :
  Utils.sanitize_sql parse fmt s = Some out <->
  s <> []
  /\ (exists statement others,
         parse s = Some (statement :: others)
         /\ Utils._is_select_statement statement = true)
  /\ Utils._contains_dangerous_keywords s = false
  /\ exists f, fmt s = Some f /\ out = strip (Utils._ensure_limit_clause f).
Proof.
  unfold Utils.sanitize_sql. destruct s as [|c s].
  { split; [discriminate|]. intros [H _]. congruence. }
  destruct (parse (c :: s)) as [[|st others]|].
  2:{ destruct (Utils._is_select_statement st) eqn:Hsel; simpl.
      - destruct (Utils._contains_dangerous_keywords (c :: s)) eqn:Hkw.
        + split; [discriminate|]. intros (_ & _ & H & _). discriminate.
        + destruct (fmt (c :: s)) as [f|].
          * split.
            -- intros [= <-]. repeat split; try discriminate; eauto.
            -- intros (_ & _ & _ & f' & [= <-] & ->). reflexivity.
          * split; [discriminate|].
            intros (_ & _ & _ & f' & H & _). discriminate.
      - split; [discriminate|].
        intros (_ & (st' & o' & [= <- <-] & H) & _). congruence. }
  all: split; [discriminate|];
    intros (_ & (st' & o' & H & _) & _); discriminate.
Qed.

(** C1 (failing input): the text [SELECT 1; SELECT 2] parses into two
    statements, and [sanitize_sql] accepts it whatever the formatter
    returns, because only the first parsed statement is classified; with
    the formatter's layout of the two statements the result still holds
    both of them. *)
Theorem sanitize_sql_accepts_second_statement :
  List.length (SqlParse.parse "SELECT 1; SELECT 2") = 2
  /\ (forall fmt f,
         fmt (of_string "SELECT 1; SELECT 2") = Some f ->
         Utils.sanitize_sql parse_model fmt "SELECT 1; SELECT 2"
         = Some (strip (Utils._ensure_limit_clause f)))
  /\ Utils.sanitize_sql parse_model (fun _ => Some two_statements_formatted)
                        "SELECT 1; SELECT 2"
     = Some (two_statements_formatted ++ of_string " LIMIT 100").
Proof.
  split; [vm_compute; reflexivity|]. split.
  - intros fmt f Hf. apply sanitize_sql_accepts.
    split; [discriminate|]. split.
    + eexists _, _. split; [reflexivity|]. vm_compute. reflexivity.
    + split; [vm_compute; reflexivity|]. now exists f.
  - vm_compute. reflexivity.
Qed.

(** C2 (counterexample): [SELECT * FROM t LIMIT 10000] is accepted, and
    the result carries [LIMIT 10000]. *)
Lemma sanitize_sql_keeps_large_limit :
  exists out n,
    Utils.sanitize_sql parse_model (fun _ => Some large_limit_formatted)
                       "SELECT * FROM t LIMIT 10000" = Some out
    /\ out = large_limit_formatted
    /\ limit_clause out n /\ (100 < n)%N.
Proof.
  exists large_limit_formatted, 10000%N.
  split; [vm_compute; reflexivity|]. split; [reflexivity|]. split.
  - exists (of_string "SELECT *" ++ nl ++ of_string "FROM t" ++ nl),
           (of_string "LIMIT"), (of_string " "), (of_string "10000"), [].
    repeat split; try discriminate; try reflexivity. repeat constructor.
  - reflexivity.
Qed.

(** C2 (amended): the result of an accepted statement is the trimmed
    output of [_ensure_limit_clause] on the formatted text, and it carries
    a LIMIT clause.  When the formatted text has no LIMIT clause the result
    ends with the appended [LIMIT 100]; when it has one, the result is the
    trimmed formatted text and keeps that clause with its own value. *)
Theorem sanitize_sql_limit_clause parse fmt (s out : str) :
  Utils.sanitize_sql parse fmt s = Some out ->
  exists f,
    fmt s = Some f
    /\ out = strip (Utils._ensure_limit_clause f)
    /\ has_limit_clause out
    /\ (~ has_limit_clause f ->
        limit_clause out 100 /\ ends_with (of_string "LIMIT 100") out)
    /\ (forall n, limit_clause f n -> out = strip f /\ limit_clause out n).
Proof.
  intros H. apply sanitize_sql_accepts in H as (_ & _ & _ & f & Hf & ->).
  exists f. split; [exact Hf|]. split; [reflexivity|]. split; [|split].
  - destruct (ensure_limit_has_clause f) as [n Hn].
    exists n. now apply limit_clause_strip.
  - intros Hno. rewrite (ensure_limit_appended Hno). split.
    + apply limit_clause_strip, appended_limit_clause.
    + apply strip_appended_limit.
  - intros n Hn. rewrite ensure_limit_unchanged by (now exists n).
    split; [reflexivity|]. now apply limit_clause_strip.
Qed.

Lemma sanitize_sql_limit_clause_witness :
  exists f,
    Some large_limit_formatted = Some f
    /\ large_limit_formatted = strip (Utils._ensure_limit_clause f)
    /\ has_limit_clause large_limit_formatted
    /\ (~ has_limit_clause f ->
        limit_clause large_limit_formatted 100
        /\ ends_with (of_string "LIMIT 100") large_limit_formatted)
    /\ (forall n, limit_clause f n ->
                  large_limit_formatted = strip f
                  /\ limit_clause large_limit_formatted n).
Proof.
  apply (@sanitize_sql_limit_clause parse_model
           (fun _ => Some large_limit_formatted)
           (of_string "SELECT * FROM t LIMIT 10000")).
  vm_compute. reflexivity.
Defined.

(** ** The input threat scanner *)

Lemma validate_input_too_long (s : str) (m : Z) :
  (len s > m)%Z ->
  Security.validate_input s m =
  ({| Security.valid := false; Security.sanitized := strip s;
      Security.warnings := [Security.warn_length m] |}, []).
Proof.
  intros H. unfold Security.validate_input.
  destruct (len s >? m)%Z eqn:E; [reflexivity|].
  rewrite Z.gtb_ltb in E. apply Z.ltb_ge in E. lia.
Qed.

Lemma validate_input_within_length (s : str) (m : Z) :
  (len s <= m)%Z ->
  Security.warnings (scan s m) = pattern_warnings s
  /\ scan_log s m = pattern_log s
  /\ Security.valid (scan s m)
     = negb (Security.matches_any Security.sql_injection_patterns s
             || Security.matches_any Security.xss_patterns s)
  /\ Security.sanitized (scan s m)
     = if Security.valid (scan s m)
       then sub_cls_empty (one_of ("<" :: ">" :: Security.quote_chars)%char)
                          (strip s)
       else strip s.
Proof.
  intros H. unfold scan, scan_log, pattern_warnings, pattern_log,
    Security.validate_input.
  destruct (len s >? m)%Z eqn:E.
  { rewrite Z.gtb_ltb in E. apply Z.ltb_lt in E. lia. }
  destruct (Security.matches_any Security.sql_injection_patterns s),
           (Security.matches_any Security.xss_patterns s);
    simpl; repeat split; reflexivity.
Qed.

(** C7 (counterexample): an input that matches a SQL-injection pattern and
    an XSS pattern gets both warnings, and both checks log. *)
Lemma validate_input_two_warnings :
  Security.warnings (scan "select <script>x</script>" 1000)
  = [Security.warn_sql; Security.warn_xss]
  /\ List.length (scan_log "select <script>x</script>" 1000) = 2
  /\ ~ (List.length
          (Security.warnings (scan "select <script>x</script>" 1000)) <= 1).
Proof.
  split; [vm_compute; reflexivity|]. split; [vm_compute; reflexivity|].
  vm_compute. intros H. inversion H as [|? H']. inversion H'.
Qed.

(** C7 (amended): only the length check ends the validation: an input
    longer than the maximum gets the length warning alone and no pattern
    check is made.  Any other input goes through the SQL-injection check
    and then the XSS check, whatever the first one found; each adds one
    warning when one of its patterns matches, so there are at most two
    warnings, in that order. *)
Theorem validate_input_checks (s : str) (m : Z) :
  ((len s > m)%Z ->
   Security.warnings (scan s m) = [Security.warn_length m]
   /\ scan_log s m = [] /\ Security.valid (scan s m) = false)
  /\ ((len s <= m)%Z ->
      Security.warnings (scan s m) = pattern_warnings s
      /\ scan_log s m = pattern_log s
      /\ Security.valid (scan s m)
         = negb (Security.matches_any Security.sql_injection_patterns s
                 || Security.matches_any Security.xss_patterns s))
  /\ List.length (Security.warnings (scan s m)) <= 2.
Proof.
  split; [|split].
  - intros H. unfold scan, scan_log.
    rewrite (@validate_input_too_long _ _ H). auto.
  - intros H. destruct (@validate_input_within_length _ _ H) as (? & ? & ? & _).
    auto.
  - destruct (Z_le_gt_dec (len s) m) as [H|H].
    + destruct (@validate_input_within_length _ _ H) as (-> & _).
      unfold pattern_warnings.
      destruct (Security.matches_any _ s), (Security.matches_any _ s);
        simpl; lia.
    + unfold scan. rewrite (@validate_input_too_long _ _ H). simpl. lia.
Qed.

Lemma validate_input_checks_witness :
  (Security.warnings (scan "drop it" 3) = [Security.warn_length 3]
   /\ scan_log "drop it" 3 = [] /\ Security.valid (scan "drop it" 3) = false)
  /\ (Security.warnings (scan "drop it" 1000) = pattern_warnings "drop it"
      /\ scan_log "drop it" 1000 = pattern_log "drop it"
      /\ Security.valid (scan "drop it" 1000)
         = negb (Security.matches_any Security.sql_injection_patterns "drop it"
                 || Security.matches_any Security.xss_patterns "drop it")).
Proof.
  split.
  - apply (proj1 (validate_input_checks (of_string "drop it") 3)).
    reflexivity.
  - apply (proj1 (proj2 (validate_input_checks (of_string "drop it") 1000))).
    discriminate.
Defined.

(** C10: when the scanner rejects an input, for its length or for a
    pattern, the [sanitized] field is the trimmed input with nothing
    removed; the removal of angle brackets and quotes is applied to valid
    inputs only. *)
Theorem invalid_input_not_sanitized (s : str) (m : Z) :
  Security.valid (scan s m) = false ->
  Security.sanitized (scan s m) = strip s.
Proof.
  intros H. destruct (Z_le_gt_dec (len s) m) as [Hle|Hgt].
  - destruct (@validate_input_within_length _ _ Hle) as (_ & _ & _ & E).
    now rewrite E, H.
  - unfold scan. now rewrite (@validate_input_too_long _ _ Hgt).
Qed.

Lemma invalid_input_not_sanitized_witness :
  Security.sanitized (scan "  <script>alert('1')</script> " 1000)
  = of_string "<script>alert('1')</script>".
Proof.
  rewrite (@invalid_input_not_sanitized
             (of_string "  <script>alert('1')</script> ") 1000).
  - vm_compute. reflexivity.
  - vm_compute. reflexivity.
Defined.

(** ** The chat gate *)

Lemma lstrip_by_fixed p (s : str) :
  match s with [] => True | c :: _ => p c = false end ->
  lstrip_by p s = s.
Proof. destruct s as [|c s]; simpl; [reflexivity|]. now intros ->. Qed.

Lemma lstrip_by_head p (s : str) :
  match lstrip_by p s with [] => True | c :: _ => p c = false end.
Proof.
  induction s as [|c s IH]; simpl; [exact I|].
  destruct (p c) eqn:E; [exact IH|exact E].
Qed.

Lemma rstrip_by_head p (s : str) :
  match s with [] => True | c :: _ => p c = false end ->
  match rstrip_by p s with [] => True | c :: _ => p c = false end.
Proof.
  destruct s as [|c s]; [intros _; exact I|]. intros Hc.
  rewrite rstrip_by_cons. destruct (rstrip_by p s).
  - now rewrite Hc.
  - exact Hc.
Qed.

Lemma rstrip_by_idempotent p (s : str) :
  rstrip_by p (rstrip_by p s) = rstrip_by p s.
Proof.
  unfold rstrip_by. rewrite rev_involutive. f_equal.
  apply lstrip_by_fixed, lstrip_by_head.
Qed.

Lemma strip_idempotent (s : str) : strip (strip s) = strip s.
Proof.
  unfold strip.
  rewrite (lstrip_by_fixed isspace (rstrip_by isspace (lstrip_by isspace s))).
  - apply rstrip_by_idempotent.
  - apply rstrip_by_head, lstrip_by_head.
Qed.

(** What the gate of the chat route checks. *)
Lemma chat_gate_accepts (m : str) :
  Utils.validate_input m = true <->
  m <> [] /\ strip m <> [] /\ (len (strip m) <= 1000)%Z
  /\ forall pattern, In pattern Utils.dangerous_patterns ->
                     search true pattern (strip m) = false.
Proof.
  unfold Utils.validate_input. destruct m as [|c m].
  { split; [discriminate|]. intros [H _]. congruence. }
  set (t := strip (c :: m)).
  assert (Hlen : (len t =? 0)%Z = negb (match t with [] => false | _ => true end)).
  { unfold len. now destruct t. }
  rewrite Hlen. destruct t as [|x t'] eqn:Et; cbn [negb orb].
  { split; [discriminate|]. intros (_ & H & _). congruence. }
  rewrite <- Et. clear Hlen.
  destruct (len t >? 1000)%Z eqn:E1.
  { split; [discriminate|]. intros (_ & _ & H & _).
    rewrite Z.gtb_ltb in E1. apply Z.ltb_lt in E1. lia. }
  rewrite Z.gtb_ltb in E1. apply Z.ltb_ge in E1.
  destruct (existsb (fun pattern => search true pattern t)
                    Utils.dangerous_patterns) eqn:Ex.
  - split; [discriminate|]. intros (_ & _ & _ & H).
    apply existsb_exists in Ex as (r & Hr & Hs). rewrite (H r Hr) in Hs.
    discriminate.
  - split; [|reflexivity]. intros _. split; [discriminate|].
    split; [rewrite Et; discriminate|].
    split; [exact E1|]. intros r Hr.
    destruct (search true r t) eqn:Hs; [|reflexivity].
    assert (existsb (fun pattern => search true pattern t)
                    Utils.dangerous_patterns = true)
      by (apply existsb_exists; eauto).
    congruence.
Qed.

(** The translator is called exactly on the trimmed messages that pass
    [utils.validate_input]. *)
Lemma chat_translate_call parse fmt nl2sql exec summ (message m : str) :
  In (App.TranslateCall m)
     (fst (App.chat parse fmt nl2sql exec summ message)) <->
  m = strip message /\ Utils.validate_input (strip message) = true.
Proof.
  unfold App.chat.
  destruct (Utils.validate_input (strip message)) eqn:Hv; simpl.
  - destruct (nl2sql (strip message)) as [[|c q]|];
      [| destruct (Utils.sanitize_sql parse fmt (c :: q)) as [[|c' q']|];
         [| destruct (exec (c' :: q')) |] |]; simpl;
      (split; [intros H | intros [-> _]; now left]);
      repeat (destruct H as [H|H]; try discriminate H);
      try contradiction; injection H as <-; auto.
  - split; [intros []|intros [_ H]; discriminate].
Qed.

(** C4 (counterexample): the message [select all customers] passes the
    gate of the chat route and is handed to the translator, whatever the
    collaborators do, although the input threat scanner rejects it. *)
Lemma chat_forwards_sql_keyword :
  (forall parse fmt nl2sql exec summ,
      In (App.TranslateCall "select all customers")
         (fst (App.chat parse fmt nl2sql exec summ "select all customers")))
  /\ Utils.validate_input "select all customers" = true
  /\ Security.valid (scan "select all customers" 1000) = false
  /\ Security.warnings (scan "select all customers" 1000)
     = [Security.warn_sql].
Proof.
  split; [|repeat split; vm_compute; reflexivity].
  intros. apply chat_translate_call. split; vm_compute; reflexivity.
Qed.

(** C4 (amended): every message handed to the translator is the trimmed
    chat message and has passed the gate of the chat route,
    [utils.validate_input]: it is not empty, has at most 1000 characters
    and matches none of the four patterns of that gate (script element,
    [javascript:], [vbscript:], event-handler attribute). *)
Theorem chat_translator_gate parse fmt nl2sql exec summ (message m : str) :
  In (App.TranslateCall m)
     (fst (App.chat parse fmt nl2sql exec summ message)) ->
  m = strip message
  /\ Utils.validate_input m = true
  /\ m <> [] /\ (len m <= 1000)%Z
  /\ forall pattern, In pattern Utils.dangerous_patterns ->
                     search true pattern m = false.
Proof.
  intros H. apply chat_translate_call in H as [-> Hv].
  split; [reflexivity|]. split; [exact Hv|].
  apply chat_gate_accepts in Hv. rewrite strip_idempotent in Hv.
  destruct Hv as (H1 & _ & H3 & H4). auto.
Qed.

Lemma chat_translator_gate_witness :
  of_string "select all customers" = strip "  select all customers "
  /\ Utils.validate_input "select all customers" = true
  /\ of_string "select all customers" <> []
  /\ (len "select all customers" <= 1000)%Z
  /\ forall pattern, In pattern Utils.dangerous_patterns ->
                     search true pattern "select all customers" = false.
Proof.
  apply (@chat_translator_gate parse_model (fun _ => None) (fun _ => None)
           (fun _ => None) (fun _ _ _ => [])
           (of_string "  select all customers ")).
  vm_compute. left. reflexivity.
Defined.

(** ** Session tokens *)

Lemma str_eqb_eq (a b : str) : PyStr.eqb a b = true <-> a = b.
Proof.
  revert b. induction a as [|x a IH]; intros [|y b]; simpl;
    try (split; [discriminate|discriminate]); [split; reflexivity|].
  rewrite andb_true_iff, Ascii.eqb_eq, IH. split.
  - intros [-> ->]. reflexivity.
  - intros [= -> ->]. auto.
Qed.

Lemma str_eqb_refl (a : str) : PyStr.eqb a a = true.
Proof. now apply str_eqb_eq. Qed.

Lemma str_eqb_neq (a b : str) : a <> b -> PyStr.eqb a b = false.
Proof.
  intros H. destruct (PyStr.eqb a b) eqn:E; [|reflexivity].
  apply str_eqb_eq in E. contradiction.
Qed.

(** A token that is refused by [jwt.decode] yields the failure value. *)
Lemma decode_failure_is_none hs256 secret now t e :
  Security.jwt_decode hs256 now t secret [of_string "HS256"] = Raise e ->
  Security.validate_session_token hs256 secret now t = Return None.
Proof.
  intros H. unfold Security.validate_session_token. rewrite H.
  assert (He : Security.is_InvalidTokenError e = true).
  { unfold Security.jwt_decode in H. destruct t as [|alg claims sig].
    - now injection H as <-.
    - destruct (negb (existsb (PyStr.eqb alg) [of_string "HS256"]));
        [now injection H as <-|].
      destruct (negb (PyStr.eqb sig (hs256 secret claims)));
        [now injection H as <-|].
      destruct (Security.exp claims) as [x|]; [|discriminate].
      destruct (Security.usec x <=? now)%Z; [now injection H as <-|].
      discriminate. }
  destruct e; try reflexivity; discriminate.
Qed.

(** C8: the payload is returned only for a token whose algorithm and
    signature verify and whose expiry is not in the past; a token whose
    expiry lies in the past yields the failure value whatever its
    signature, the valid one included; a token whose signature is not the
    one of its claims yields the failure value whatever its expiry. *)
Theorem validate_session_token_checks hs256 (secret : str) (now : Z)
        (t : Security.token) :
  (forall p,
      Security.validate_session_token hs256 secret now t = Return (Some p) ->
      exists e, t = Security.Jwt "HS256" p (hs256 secret p)
                /\ Security.exp p = Some e
                /\ (now <= Security.usec e)%Z)
  /\ (forall alg claims sig e,
         t = Security.Jwt alg claims sig ->
         Security.exp claims = Some e -> (Security.usec e < now)%Z ->
         Security.validate_session_token hs256 secret now t = Return None)
  /\ (forall alg claims sig,
         t = Security.Jwt alg claims sig -> sig <> hs256 secret claims ->
         Security.validate_session_token hs256 secret now t = Return None).
Proof.
  split; [|split].
  - intros p H.
    destruct (Security.jwt_decode hs256 now t secret [of_string "HS256"])
      as [q|err] eqn:D.
    2:{ rewrite (decode_failure_is_none _ _ _ _ D) in H. discriminate. }
    unfold Security.validate_session_token in H. rewrite D in H.
    unfold Security.jwt_decode in D. destruct t as [|alg claims sig];
      [discriminate|].
    destruct (existsb (PyStr.eqb alg) [of_string "HS256"]) eqn:Ha;
      [|discriminate]. simpl in D, Ha. rewrite orb_false_r in Ha.
    apply str_eqb_eq in Ha. subst alg.
    destruct (PyStr.eqb sig (hs256 secret claims)) eqn:Hs; [|discriminate].
    apply str_eqb_eq in Hs. subst sig. simpl in D.
    destruct (Security.exp claims) as [e|] eqn:He.
    + destruct (Security.usec e <=? now)%Z eqn:Hn; [discriminate|].
      injection D as <-. rewrite He in H. simpl in H.
      unfold Security.fromtimestamp in H.
      destruct ((-62135596800 <=? e)%Z && (e <=? 253402300799)%Z)%bool;
        [|discriminate]. simpl in H.
      destruct (now >? Security.usec e)%Z eqn:Hgt; [discriminate|].
      injection H as <-. exists e. repeat split; auto.
      apply Z.leb_gt in Hn. lia.
    + injection D as <-. rewrite He in H. discriminate.
  - intros alg claims sig e -> He Hpast.
    destruct (Security.jwt_decode hs256 now (Security.Jwt alg claims sig)
                secret [of_string "HS256"]) as [q|err] eqn:D.
    + exfalso. unfold Security.jwt_decode in D.
      destruct (negb (existsb (PyStr.eqb alg) [of_string "HS256"]));
        [discriminate|].
      destruct (negb (PyStr.eqb sig (hs256 secret claims))); [discriminate|].
      rewrite He in D.
      destruct (Security.usec e <=? now)%Z eqn:Hn; [discriminate|].
      apply Z.leb_gt in Hn. lia.
    + exact (decode_failure_is_none _ _ _ _ D).
  - intros alg claims sig -> Hsig.
    apply (@decode_failure_is_none hs256 secret now _
             (if existsb (PyStr.eqb alg) [of_string "HS256"]
              then Security.InvalidSignatureError
              else Security.InvalidAlgorithmError)).
    unfold Security.jwt_decode.
    destruct (existsb (PyStr.eqb alg) [of_string "HS256"]); simpl;
      [|reflexivity].
    now rewrite (str_eqb_neq Hsig).
Qed.

Lemma validate_session_token_checks_witness :
  (exists e,
      Security.jwt_encode sample_hs256 sample_claims "k"
      = Security.Jwt "HS256" sample_claims (sample_hs256 "k" sample_claims)
      /\ Security.exp sample_claims = Some e
      /\ (1000 <= Security.usec e)%Z)
  /\ Security.validate_session_token sample_hs256 "k" 2000000001
       (Security.jwt_encode sample_hs256 sample_claims "k") = Return None
  /\ Security.validate_session_token sample_hs256 "k" 1000
       (Security.Jwt "HS256" sample_claims "forged") = Return None.
Proof.
  split; [|split].
  - apply (proj1 (validate_session_token_checks sample_hs256 (of_string "k")
                    1000 (Security.jwt_encode sample_hs256 sample_claims "k"))).
    vm_compute. reflexivity.
  - apply (proj1 (proj2 (validate_session_token_checks sample_hs256
                           (of_string "k") 2000000001
                           (Security.jwt_encode sample_hs256 sample_claims "k")))
             (of_string "HS256") sample_claims
             (sample_hs256 "k" sample_claims) 2000%Z).
    + reflexivity.
    + reflexivity.
    + reflexivity.
  - apply (proj2 (proj2 (validate_session_token_checks sample_hs256
                           (of_string "k") 1000
                           (Security.Jwt "HS256" sample_claims "forged")))
             (of_string "HS256") sample_claims (of_string "forged")).
    + reflexivity.
    + discriminate.
Defined.

(** ** Query execution *)

(** Every operation the call performs succeeds. *)
Lemma execute_query_rows d (q : str) params rows :
  Database.execute_query d q params = Return (Some rows) <->
  Database.getconn d = Return true
  /\ Database.cursor d = Return tt
  /\ Database.run_statement d q params = Return rows
  /\ Database.close d = Return tt
  /\ Database.putconn d = Return tt.
Proof.
  unfold Database.execute_query, Database.with_connection,
    Database.with_cursor, finally, bind.
  destruct (Database.getconn d) as [[|]|e1];
    destruct (Database.cursor d) as [[]|e2];
    destruct (Database.run_statement d q params) as [r|e3];
    destruct (Database.close d) as [[]|e4];
    destruct (Database.rollback d) as [[]|e5];
    destruct (Database.putconn d) as [[]|e6];
    repeat match goal with e : Database.exn |- _ => destruct e end;
    split; try discriminate;
    try (intros (H1 & H2 & H3 & H4 & H5); discriminate);
    try (intros [= <-]; repeat split; reflexivity);
    try (intros (_ & _ & [= <-] & _); reflexivity).
Qed.

Lemma execute_query_total d (q : str) params :
  exists v, Database.execute_query d q params = Return v.
Proof.
  unfold Database.execute_query.
  destruct (Database.with_connection d
              (Database.with_cursor d (Database.run_statement d q params)))
    as [r|[m|m]]; eauto.
Qed.

(** C9: [execute_query] never raises: whatever the pool, the connection
    and the cursor do, it returns either the rows or the failure value
    [None]; it returns rows only when every driver operation succeeded, so
    any driver error gives [None]; [None] differs from the empty list of
    rows, and the chat route answers them differently (error 500 against a
    success with a row count of 0). *)
Theorem execute_query_never_raises d (q : str) params :
  (exists v, Database.execute_query d q params = Return v)
  /\ (forall e,
         (Database.getconn d = Raise e \/ Database.cursor d = Raise e
          \/ Database.run_statement d q params = Raise e
          \/ Database.close d = Raise e \/ Database.putconn d = Raise e) ->
         Database.execute_query d q params = Return None)
  /\ (Return None : Database.result (option (list Database.row)))
     <> Return (Some [])
  /\ (forall parse fmt nl2sql summ message,
         In (App.ExecuteCall q)
            (fst (App.chat parse fmt nl2sql (App.run_query d) summ message)) ->
         (Database.execute_query d q None = Return None ->
          snd (App.chat parse fmt nl2sql (App.run_query d) summ message)
          = App.Error500 "Failed to execute database query.")
         /\ (Database.execute_query d q None = Return (Some []) ->
             exists text,
               snd (App.chat parse fmt nl2sql (App.run_query d) summ message)
               = App.Success text 0)).
Proof.
  split; [apply execute_query_total|]. split; [|split].
  - intros e H. destruct (execute_query_total d q params) as [[rows|] Hv];
      [|exact Hv].
    apply execute_query_rows in Hv as (H1 & H2 & H3 & H4 & H5).
    destruct H as [H|[H|[H|[H|H]]]]; congruence.
  - discriminate.
  - intros parse fmt nl2sql summ message Hin.
    unfold App.chat, App.run_query in *.
    destruct (negb (Utils.validate_input (strip message)));
      [destruct Hin|].
    destruct (nl2sql (strip message)) as [[|c0 q0]|];
      try (simpl in Hin; destruct Hin as [Hin|[]]; discriminate).
    destruct (Utils.sanitize_sql parse fmt (c0 :: q0)) as [[|c1 q1]|];
      try (simpl in Hin; destruct Hin as [Hin|[]]; discriminate).
    destruct (Database.execute_query d (c1 :: q1) None) as [[rows|]|e] eqn:E;
      simpl in Hin.
    + destruct Hin as [Hin|[Hin|[Hin|[]]]]; try discriminate.
      injection Hin as <-. rewrite E. split; [discriminate|].
      intros [= ->]. simpl. eauto.
    + destruct Hin as [Hin|[Hin|[]]]; try discriminate.
      injection Hin as <-. rewrite E. split; [reflexivity|discriminate].
    + destruct (execute_query_total d (c1 :: q1) None) as [v Hv]. congruence.
Qed.

Lemma execute_query_never_raises_witness :
  Database.execute_query failing_driver "SELECT 1 LIMIT 100" None
  = Return None
  /\ snd (App.chat parse_model (fun s => Some s)
            (fun _ => Some (of_string "SELECT 1"))
            (App.run_query failing_driver) (fun _ _ _ => [])
            "how many orders")
     = App.Error500 "Failed to execute database query.".
Proof.
  pose proof (execute_query_never_raises failing_driver
                (of_string "SELECT 1 LIMIT 100") None) as (_ & H2 & _ & H4).
  assert (E : Database.execute_query failing_driver
                (of_string "SELECT 1 LIMIT 100") None = Return None).
  { apply (H2 (Database.Psycopg2Error "statement timeout")).
    right. right. left. reflexivity. }
  split; [exact E|].
  apply (H4 parse_model (fun s => Some s)
            (fun _ => Some (of_string "SELECT 1")) (fun _ _ _ => [])
            (of_string "how many orders")).
  - vm_compute. right. left. reflexivity.
  - exact E.
Defined.

(** * Further properties *)

(** ** The appended clause is the only one *)

Lemma limit_clause_extend (r t : str) (n : N) :
  limit_clause r n ->
  (forall c, hd_error t = Some c -> isdecimal c = false) ->
  limit_clause (r ++ t) n.
Proof.
  intros (pre & kw & ws & ds & post & -> & Hkw & Hpre & Hws1 & Hws2
          & Hds1 & Hds2 & Hpost & Hn) Ht.
  exists pre, kw, ws, ds, (post ++ t). rewrite <- !app_assoc.
  repeat split; auto.
  destruct post as [|x post]; simpl; [|exact Hpost].
  destruct t as [|c t]; simpl; [exact I|]. now apply Ht.
Qed.

Lemma limit_clause_unlstrip (s : str) (n : N) :
  limit_clause (lstrip_by isspace s) n -> limit_clause s n.
Proof.
  induction s as [|c s IH]; simpl; [auto|].
  destruct (isspace c) eqn:Hc; [|auto]. intros H.
  destruct (IH H) as (pre & kw & ws & ds & post & -> & Hkw & Hpre & Hrest).
  exists (c :: pre), kw, ws, ds, post.
  split; [reflexivity|]. split; [exact Hkw|]. split; [|exact Hrest].
  rewrite last_char_cons.
  destruct pre as [|z pre] using rev_ind.
  - simpl. now apply space_not_word.
  - now rewrite last_char_snoc in *.
Qed.

Lemma limit_clause_unrstrip (s : str) (n : N) :
  limit_clause (rstrip_by isspace s) n -> limit_clause s n.
Proof.
  intros H. destruct (rstrip_by_split isspace s) as (t & Hs & Ht & _).
  rewrite Hs. apply limit_clause_extend; [exact H|].
  intros c Hc. destruct t as [|x t]; [discriminate|].
  injection Hc as ->. simpl in Ht. apply andb_true_iff in Ht as [Ht _].
  destruct (isdecimal c) eqn:E; [|reflexivity].
  destruct (decimal_class c E). congruence.
Qed.

Lemma limit_clause_unstrip (s : str) (n : N) :
  limit_clause (strip s) n -> limit_clause s n.
Proof.
  intros H. now apply limit_clause_unlstrip, limit_clause_unrstrip.
Qed.

(** Splitting off the last character on both sides of an equation whose
    right-hand side ends with a known character. *)
Lemma snoc_eq (a : str) (y : str) (b : str) (c : ascii) :
  a ++ y = b ++ [c] ->
  (y = [] /\ a = b ++ [c])
  \/ (exists y', y = y' ++ [c] /\ a ++ y' = b).
Proof.
  intros H. destruct y as [|z y] using rev_ind.
  - left. rewrite app_nil_r in H. auto.
  - right. rewrite app_assoc in H. apply app_inj_tail in H as [H ->].
    eauto.
Qed.

Lemma appended_limit_only (p : str) (n : N) :
  limit_clause (p ++ of_string " LIMIT 100") n ->
  n = 100%N \/ limit_clause p n.
Proof.
  intros (pre & kw & ws & ds & post & Hs & Hkw & Hpre & Hws1 & Hws2
          & Hds1 & Hds2 & Hpost & Hn).
  assert (Hs' : p ++ of_string " LIMIT 100"
                = (pre ++ kw ++ ws ++ ds) ++ post)
    by (rewrite Hs; now rewrite <- !app_assoc).
  apply app_eq_app in Hs' as [l [[Ha Hb]|[Ha Hb]]].
  - (* the clause ends inside [p] *)
    right. exists pre, kw, ws, ds, l. rewrite Ha, <- !app_assoc.
    repeat split; auto. destruct l as [|x l]; [exact I|].
    rewrite Hb in Hpost. exact Hpost.
  - (* the clause ends inside the appended text *)
    destruct l as [|x l].
    { right. rewrite app_nil_r in Ha. simpl in Hb.
      exists pre, kw, ws, ds, []. rewrite app_nil_r.
      repeat split; auto. }
    left. rewrite <- Hn. clear Hn.
    assert (Hend : x :: l = of_string " LIMIT 100" /\ post = []).
    { destruct ds as [|z ds'] using rev_ind; [congruence|]. clear IHds'.
      rewrite forallb_app in Hds2. apply andb_true_iff in Hds2 as [_ Hz].
      simpl in Hz. rewrite andb_true_r in Hz.
      rewrite !app_assoc in Ha.
      destruct (@exists_last _ (x :: l) ltac:(discriminate))
        as (l' & y & E).
      rewrite E in *. clear E. rewrite app_assoc in Ha.
      apply app_inj_tail in Ha as [_ <-].
      rewrite <- app_assoc in Hb. simpl in Hb.
      repeat (destruct l' as [|? l']; simpl in Hb;
              [injection Hb as <- <-; try discriminate Hz;
               try discriminate Hpost; try (split; reflexivity)
              |injection Hb as <- Hb]);
        try discriminate Hb.
      destruct l'; discriminate Hb. }
    destruct Hend as [El ->]. rewrite El in Ha. clear El Hb Hpost.
    (* peel "100" off [ds] *)
    change (of_string " LIMIT 100")
      with (of_string " LIMIT 10" ++ ["0"%char]) in Ha.
    rewrite !app_assoc in Ha. rewrite <- (app_assoc _ _ ["0"%char]) in Ha.
    rewrite !app_assoc in Ha.
    apply snoc_eq in Ha as [[-> _]|(d1 & -> & Ha)]; [congruence|].
    change (of_string " LIMIT 10")
      with (of_string " LIMIT 1" ++ ["0"%char]) in Ha.
    rewrite !app_assoc in Ha.
    apply snoc_eq in Ha as [[-> Ha]|(d2 & -> & Ha)].
    { exfalso. apply snoc_eq in Ha as [[-> _]|(w1 & -> & _)];
        [congruence|].
      rewrite forallb_app in Hws2. apply andb_true_iff in Hws2 as [_ H].
      discriminate H. }
    change (of_string " LIMIT 1")
      with (of_string " LIMIT " ++ ["1"%char]) in Ha.
    rewrite !app_assoc in Ha.
    apply snoc_eq in Ha as [[-> Ha]|(d3 & -> & Ha)].
    { exfalso. apply snoc_eq in Ha as [[-> _]|(w1 & -> & _)];
        [congruence|].
      rewrite forallb_app in Hws2. apply andb_true_iff in Hws2 as [_ H].
      discriminate H. }
    change (of_string " LIMIT ")
      with (of_string " LIMIT" ++ [" "%char]) in Ha.
    rewrite !app_assoc in Ha.
    apply snoc_eq in Ha as [[-> _]|(d4 & -> & _)]; [reflexivity|].
    exfalso. rewrite !forallb_app in Hds2.
    repeat (apply andb_true_iff in Hds2 as [Hds2 ?]).
    discriminate.
Qed.

Lemma no_clause_only_appended (f : str) (n : N) :
  ~ has_limit_clause f ->
  limit_clause (strip (Utils._ensure_limit_clause f)) n -> n = 100%N.
Proof.
  intros Hno H. rewrite (ensure_limit_appended Hno) in H.
  apply limit_clause_unstrip, appended_limit_only in H as [H|H];
    [exact H|].
  exfalso. apply Hno. exists n.
  destruct (without_trailing_terminators_split f) as (t & Hf & Ht & _).
  rewrite Hf. apply limit_clause_extend; [exact H|].
  intros c Hc. destruct t as [|x t]; [discriminate|].
  injection Hc as ->. inversion Ht as [|? ? Hx _]. now subst c.
Qed.

(** ** [utils.py]: the chat gate and the sanitizer *)

Lemma lstrip_by_all p (s : str) : forallb p s = true -> lstrip_by p s = [].
Proof.
  induction s as [|c s IH]; simpl; [reflexivity|].
  intros H. apply andb_true_iff in H as [-> H]. auto.
Qed.

Lemma strip_blank (s : str) : forallb isspace s = true -> strip s = [].
Proof. intros H. unfold strip. now rewrite lstrip_by_all. Qed.

(** X1: trimming a message does not change the verdict of
    [validate_input]. *)
Theorem validate_input_trim_invariant (m : str) :
  Utils.validate_input (strip m) = Utils.validate_input m.
Proof.
  destruct (Utils.validate_input m) eqn:E.
  - apply chat_gate_accepts in E as (H1 & H2 & H3 & H4).
    apply chat_gate_accepts. rewrite strip_idempotent. auto.
  - destruct (Utils.validate_input (strip m)) eqn:E'; [|reflexivity].
    apply chat_gate_accepts in E' as (H1 & H2 & H3 & H4).
    rewrite strip_idempotent in *.
    assert (Utils.validate_input m = true); [|congruence].
    apply chat_gate_accepts. repeat split; auto.
    intros ->. now apply H1.
Qed.

(** X2: [validate_input] refuses the empty message, a message made of
    blanks only, and a message whose trimmed text is longer than 1000
    characters. *)
Theorem validate_input_rejects_blank_and_long (m : str) :
  forallb isspace m = true \/ (len (strip m) > 1000)%Z ->
  Utils.validate_input m = false.
Proof.
  intros H. destruct (Utils.validate_input m) eqn:E; [|reflexivity].
  apply chat_gate_accepts in E as (H1 & H2 & H3 & H4).
  destruct H as [H|H].
  - now apply strip_blank in H.
  - lia.
Qed.

Lemma validate_input_rejects_blank_and_long_witness :
  Utils.validate_input "   " = false.
Proof.
  apply validate_input_rejects_blank_and_long. left. reflexivity.
Defined.

(** X3: [_is_select_statement] looks at the first token that is neither a
    Whitespace nor a comment token, and at nothing else: the statement is
    classified SELECT exactly when the upper-cased value of that token is
    SELECT; a statement made of such skipped tokens only is not SELECT. *)
Theorem is_select_first_significant_token
        (skippable rest : SqlParse.statement) (t : SqlParse.token) :
  forallb (fun x => Utils.skipped (SqlParse.ttype x)) skippable = true ->
  (Utils._is_select_statement skippable = false)
  /\ (Utils.skipped (SqlParse.ttype t) = false ->
      Utils._is_select_statement (skippable ++ t :: rest)
      = SqlParse.codes_eqb (upper (SqlParse.value t)) (codes "SELECT")).
Proof.
  unfold Utils._is_select_statement, Utils.first_significant.
  induction skippable as [|x l IH]; simpl; intros H.
  - split; [reflexivity|]. now intros ->.
  - apply andb_true_iff in H as [Hx Hl]. rewrite Hx. simpl. now apply IH.
Qed.

Lemma is_select_first_significant_token_witness :
  Utils._is_select_statement
    [SqlParse.Token SqlParse.Whitespace " ";
     SqlParse.Token SqlParse.Comment_Multiline "/* x */"] = false
  /\ Utils._is_select_statement
       ([SqlParse.Token SqlParse.Whitespace " "]
        ++ SqlParse.Token SqlParse.Newline nl
        :: [SqlParse.Token SqlParse.Keyword_DML "SELECT"])
     = SqlParse.codes_eqb (upper nl) (codes "SELECT").
Proof.
  split.
  - apply (proj1 (@is_select_first_significant_token
                    [SqlParse.Token SqlParse.Whitespace " ";
                     SqlParse.Token SqlParse.Comment_Multiline "/* x */"]
                    [] (SqlParse.Token SqlParse.Newline nl) eq_refl)).
  - apply (proj2 (@is_select_first_significant_token
                    [SqlParse.Token SqlParse.Whitespace " "]
                    [SqlParse.Token SqlParse.Keyword_DML "SELECT"]
                    (SqlParse.Token SqlParse.Newline nl) eq_refl)).
    reflexivity.
Defined.

Lemma dangerous_keywords_denied_word (text : str) :
  Utils._contains_dangerous_keywords text = true
  <-> contains_denied_word text.
Proof.
  unfold Utils._contains_dangerous_keywords, Utils.dangerous_keywords,
    contains_denied_word.
  rewrite existsb_exists. split.
  - intros (r & Hr & Hs). apply in_map_iff in Hr as (kw & <- & Hkw).
    destruct (deny_list_letters Hkw) as [Hne Hl].
    exists kw. split; [now apply deny_list_same_words|].
    now apply keyword_search.
  - intros (kw & Hkw & Hocc). apply deny_list_same_words in Hkw.
    destruct (deny_list_letters Hkw) as [Hne Hl].
    exists (Utils.keyword_pattern kw). split; [now apply in_map|].
    now apply keyword_search.
Qed.

(** X4: a text accepted by [sanitize_sql] contains none of the deny-listed
    keywords as a whole word, anywhere, whatever the parser and the
    formatter. *)
Theorem sanitize_sql_no_denied_word parse fmt (s out : str) :
  Utils.sanitize_sql parse fmt s = Some out -> ~ contains_denied_word s.
Proof.
  intros H Hw. apply sanitize_sql_accepts in H as (_ & _ & Hk & _).
  apply dangerous_keywords_denied_word in Hw. congruence.
Qed.

Lemma sanitize_sql_no_denied_word_witness :
  ~ contains_denied_word "SELECT updated_at FROM t".
Proof.
  apply (@sanitize_sql_no_denied_word parse_model (fun s => Some s)
           (of_string "SELECT updated_at FROM t")
           (of_string "SELECT updated_at FROM t LIMIT 100")).
  vm_compute. reflexivity.
Defined.

(** X5: the result of [sanitize_sql] is never empty and has no blank at
    either end, so trimming it again changes nothing. *)
Theorem sanitize_sql_result_trimmed parse fmt (s out : str) :
  Utils.sanitize_sql parse fmt s = Some out ->
  out <> [] /\ strip out = out
  /\ (forall c rest, out = c :: rest -> isspace c = false)
  /\ (forall front c, out = front ++ [c] -> isspace c = false).
Proof.
  intros H. apply sanitize_sql_accepts in H as (_ & _ & _ & f & _ & ->).
  set (x := Utils._ensure_limit_clause f).
  assert (Hne : strip x <> []).
  { destruct (ensure_limit_has_clause f) as [n Hn].
    apply limit_clause_strip in Hn. fold x in Hn.
    destruct Hn as (pre & kw & ws & ds & post & E & _ & _ & Hws & _).
    intros E0. rewrite E0 in E. symmetry in E.
    apply app_eq_nil in E as [_ E]. apply app_eq_nil in E as [_ E].
    apply app_eq_nil in E as [E _]. contradiction. }
  split; [exact Hne|]. split; [apply strip_idempotent|]. split.
  - intros c rest E.
    pose proof (rstrip_by_head isspace (lstrip_by isspace x)
                  (lstrip_by_head isspace x)) as Hh.
    unfold strip in E. rewrite E in Hh. exact Hh.
  - intros front c E.
    destruct (rstrip_by_split isspace (lstrip_by isspace x))
      as (t & _ & _ & Hlast).
    apply (Hlast front c). exact E.
Qed.

Lemma sanitize_sql_result_trimmed_witness :
  of_string "SELECT 1 LIMIT 100" <> []
  /\ strip "SELECT 1 LIMIT 100" = of_string "SELECT 1 LIMIT 100"
  /\ (forall c rest, of_string "SELECT 1 LIMIT 100" = c :: rest ->
                     isspace c = false)
  /\ (forall front c, of_string "SELECT 1 LIMIT 100" = front ++ [c] ->
                      isspace c = false).
Proof.
  apply (@sanitize_sql_result_trimmed parse_model (fun s => Some s)
           (of_string "SELECT 1")).
  vm_compute. reflexivity.
Defined.

(** X6: when the formatted text has no LIMIT clause, the result of
    [sanitize_sql] carries the clause [LIMIT 100] and no other LIMIT
    clause, so the bound of 100 rows holds for it. *)
Theorem sanitize_sql_appended_limit_only parse fmt (s f out : str) :
  Utils.sanitize_sql parse fmt s = Some out ->
  fmt s = Some f -> ~ has_limit_clause f ->
  limit_clause out 100 /\ forall n, limit_clause out n -> n = 100%N.
Proof.
  intros H Hf Hno.
  apply sanitize_sql_accepts in H as (_ & _ & _ & f' & Hf' & ->).
  assert (f' = f) by congruence. subst f'. split.
  - rewrite (ensure_limit_appended Hno).
    apply limit_clause_strip, appended_limit_clause.
  - intros n. now apply no_clause_only_appended.
Qed.

Lemma sanitize_sql_appended_limit_only_witness :
  limit_clause "SELECT 1 LIMIT 100" 100
  /\ forall n, limit_clause "SELECT 1 LIMIT 100" n -> n = 100%N.
Proof.
  apply (@sanitize_sql_appended_limit_only parse_model (fun s => Some s)
           (of_string "SELECT 1;") (of_string "SELECT 1;")).
  - vm_compute. reflexivity.
  - reflexivity.
  - intros H. apply limit_search in H. vm_compute in H. discriminate H.
Defined.

(** ** [security.py]: the input threat scanner *)

Lemma scan_cases (s : str) (m : Z) :
  ((len s > m)%Z /\ scan s m =
     {| Security.valid := false; Security.sanitized := strip s;
        Security.warnings := [Security.warn_length m] |}
   /\ scan_log s m = [])
  \/ ((len s <= m)%Z
      /\ Security.warnings (scan s m) = pattern_warnings s
      /\ scan_log s m = pattern_log s
      /\ Security.valid (scan s m)
         = negb (Security.matches_any Security.sql_injection_patterns s
                 || Security.matches_any Security.xss_patterns s)
      /\ Security.sanitized (scan s m)
         = if Security.valid (scan s m)
           then sub_cls_empty
                  (one_of ("<" :: ">" :: Security.quote_chars)%char) (strip s)
           else strip s).
Proof.
  destruct (Z_le_gt_dec (len s) m) as [H|H].
  - right. split; [exact H|]. apply (@validate_input_within_length _ _ H).
  - left. split; [exact H|]. unfold scan, scan_log.
    now rewrite (@validate_input_too_long _ _ H).
Qed.

(** X7: the scanner's verdict and its warnings agree: the result is valid
    exactly when it carries no warning, and a valid result logs nothing. *)
Theorem scan_valid_iff_no_warning (s : str) (m : Z) :
  (Security.valid (scan s m) = true <-> Security.warnings (scan s m) = [])
  /\ (Security.valid (scan s m) = true -> scan_log s m = []).
Proof.
  destruct (scan_cases s m) as [(_ & -> & ->)|(_ & Hw & Hl & Hv & _)].
  - simpl. repeat split; discriminate.
  - rewrite Hw, Hl, Hv. unfold pattern_warnings, pattern_log.
    destruct (Security.matches_any Security.sql_injection_patterns s),
             (Security.matches_any Security.xss_patterns s);
      simpl; repeat split; try discriminate; reflexivity.
Qed.

Lemma scan_valid_iff_no_warning_witness :
  scan_log "total sales last year" 1000 = [].
Proof.
  apply (proj2 (scan_valid_iff_no_warning
                  (of_string "total sales last year") 1000)).
  vm_compute. reflexivity.
Defined.

(** X8: for a valid input the [sanitized] field is the trimmed input with
    exactly the characters [<], [>] and the two quote characters removed:
    none of them is left, every other character is kept in order, and the
    field is not longer than the trimmed input. *)
Theorem scan_valid_sanitized (s : str) (m : Z) :
  Security.valid (scan s m) = true ->
  Security.sanitized (scan s m)
  = filter (fun c => negb (one_of ("<" :: ">" :: Security.quote_chars)%char c))
           (strip s)
  /\ (forall c, In c (Security.sanitized (scan s m)) ->
                c <> "<"%char /\ c <> ">"%char /\ c <> "'"%char
                /\ c <> "034"%char)
  /\ List.length (Security.sanitized (scan s m)) <= List.length (strip s).
Proof.
  intros Hv.
  destruct (scan_cases s m) as [(_ & E & _)|(_ & _ & _ & _ & Hs)].
  { rewrite E in Hv. discriminate. }
  rewrite Hv in Hs. rewrite Hs. unfold sub_cls_empty.
  split; [reflexivity|]. split.
  - intros c Hc. apply filter_In in Hc as [_ Hc].
    apply negb_true_iff in Hc. unfold one_of in Hc. simpl in Hc.
    repeat (apply orb_false_iff in Hc as [? Hc]).
    repeat split; intros ->; discriminate.
  - apply filter_length_le.
Qed.

Lemma scan_valid_sanitized_witness :
  Security.sanitized (scan " what's <new>? " 1000)
  = filter (fun c => negb (one_of ("<" :: ">" :: Security.quote_chars)%char c))
           (strip " what's <new>? ")
  /\ (forall c, In c (Security.sanitized (scan " what's <new>? " 1000)) ->
                c <> "<"%char /\ c <> ">"%char /\ c <> "'"%char
                /\ c <> "034"%char)
  /\ List.length (Security.sanitized (scan " what's <new>? " 1000))
     <= List.length (strip " what's <new>? ").
Proof.
  apply scan_valid_sanitized. vm_compute. reflexivity.
Defined.

Lemma search_literal_char (c : ascii) (s : str) :
  In c s -> search true (lit [c]) s = true.
Proof.
  intros H. apply in_split in H as (pre & post & ->).
  apply search_spec. exists pre, [c], post. split; [reflexivity|].
  simpl. exists [c], []. split; [reflexivity|]. split; [|reflexivity].
  exists c. split; [reflexivity|]. unfold chr_match. apply Ascii.eqb_refl.
Qed.

Lemma search_alt_l icase a b (s : str) :
  search icase a s = true -> search icase (Alt a b) s = true.
Proof.
  rewrite !search_spec. intros (pre & w & rest & E & H).
  exists pre, w, rest. split; [exact E|]. now left.
Qed.

Lemma search_alt_r icase a b (s : str) :
  search icase b s = true -> search icase (Alt a b) s = true.
Proof.
  rewrite !search_spec. intros (pre & w & rest & E & H).
  exists pre, w, rest. split; [exact E|]. now right.
Qed.

(** X9: an input that is not too long and contains a semicolon or a hash
    sign anywhere is rejected with the SQL-injection warning, whatever
    else it contains. *)
Theorem scan_rejects_separator (s : str) (m : Z) :
  (len s <= m)%Z -> In ";"%char s \/ In "#"%char s ->
  Security.valid (scan s m) = false
  /\ In Security.warn_sql (Security.warnings (scan s m)).
Proof.
  intros Hlen Hc.
  assert (Hm : Security.matches_any Security.sql_injection_patterns s = true).
  { unfold Security.matches_any, Security.sql_injection_patterns.
    apply existsb_exists. destruct Hc as [Hc|Hc].
    - exists (alts [lit ";"; lit "||"; lit "&&"]). split.
      + simpl. auto 10.
      + simpl. apply search_alt_l. now apply (search_literal_char ";").
    - exists (alts [lit "--"; lit "#"; lit "/*"; lit "*/"]). split.
      + simpl. auto 10.
      + simpl. apply search_alt_r, search_alt_l.
        now apply (search_literal_char "#"). }
  destruct (scan_cases s m) as [(H & _)|(_ & Hw & _ & Hv & _)]; [lia|].
  rewrite Hv, Hw, Hm. split; [reflexivity|].
  unfold pattern_warnings. rewrite Hm. now left.
Qed.

Lemma scan_rejects_separator_witness :
  Security.valid (scan "total sales; by region" 1000) = false
  /\ In Security.warn_sql
        (Security.warnings (scan "total sales; by region" 1000)).
Proof.
  apply scan_rejects_separator.
  - discriminate.
  - left. vm_compute. auto 20.
Defined.

(** X10: with a negative maximum length every input, the empty one
    included, is rejected with the length warning alone. *)
Theorem scan_negative_maximum (s : str) (m : Z) :
  (m < 0)%Z ->
  Security.valid (scan s m) = false
  /\ Security.warnings (scan s m) = [Security.warn_length m]
  /\ Security.sanitized (scan s m) = strip s.
Proof.
  intros Hm. assert (H : (len s > m)%Z) by (unfold len; lia).
  unfold scan. rewrite (@validate_input_too_long _ _ H). auto.
Qed.

Lemma scan_negative_maximum_witness :
  Security.valid (scan [] (-1)) = false
  /\ Security.warnings (scan [] (-1)) = [Security.warn_length (-1)]
  /\ Security.sanitized (scan [] (-1)) = strip [].
Proof. apply scan_negative_maximum. reflexivity. Defined.

(** ** [security.py]: session tokens *)

Lemma timegm_bounds (instant : Z) :
  (Security.usec (SecurityMore.timegm instant) <= instant
   < Security.usec (SecurityMore.timegm instant) + 1000000)%Z.
Proof.
  unfold Security.usec, SecurityMore.timegm.
  pose proof (Z.div_mod instant 1000000 ltac:(lia)).
  pose proof (Z.mod_pos_bound instant 1000000 ltac:(lia)). lia.
Qed.

Lemma timegm_in_range (instant : Z) :
  (SecurityMore.datetime_min <= instant <= SecurityMore.datetime_max)%Z ->
  (-62135596800 <= SecurityMore.timegm instant <= 253402300799)%Z.
Proof.
  unfold SecurityMore.datetime_min, SecurityMore.datetime_max.
  intros H. pose proof (timegm_bounds instant) as B.
  unfold Security.usec in B. lia.
Qed.

(** X11: round trip of a session token.  A token issued at [now] for
    [expiry_hours] hours carries the user, the session identifier, the
    issue time and the expiry in whole seconds; validated with the same
    secret at a time [later] not before its issue, it gives back exactly
    that payload while [later] is before the expiry second, and the
    failure value from the expiry second on. *)
Theorem session_token_round_trip hs256 (secret : str) (now later : Z)
        (sid uid : str) (hours : Z) (t : Security.token) :
  SecurityMore.generate_session_token hs256 secret now sid uid hours
  = Return t ->
  let expiry := SecurityMore.timegm (now + hours * 3600 * 1000000) in
  let payload := {| Security.user_id := uid;
                    Security.iat := SecurityMore.timegm now;
                    Security.exp := Some expiry;
                    Security.session_id := sid |} in
  ((now <= later < Security.usec expiry)%Z ->
   Security.validate_session_token hs256 secret later t
   = Return (Some payload))
  /\ ((Security.usec expiry <= later)%Z ->
      Security.validate_session_token hs256 secret later t = Return None).
Proof.
  unfold SecurityMore.generate_session_token.
  destruct ((SecurityMore.datetime_min <=? now + hours * 3600 * 1000000)%Z
            && (now + hours * 3600 * 1000000 <=? SecurityMore.datetime_max)%Z)
    eqn:R; [|discriminate].
  intros [= <-]. cbv zeta.
  apply andb_true_iff in R as [R1 R2].
  apply Z.leb_le in R1, R2.
  pose proof (timegm_in_range (conj R1 R2)) as [B1 B2].
  set (e := SecurityMore.timegm (now + hours * 3600 * 1000000)) in *.
  unfold Security.validate_session_token, Security.jwt_decode,
    Security.jwt_encode. simpl.
  rewrite !str_eqb_refl. simpl. split; intros H.
  - destruct (Security.usec e <=? later)%Z eqn:E;
      [apply Z.leb_le in E; lia|].
    simpl. unfold Security.fromtimestamp.
    destruct ((-62135596800 <=? e)%Z && (e <=? 253402300799)%Z) eqn:F.
    + simpl. destruct (later >? Security.usec e)%Z eqn:G; [|reflexivity].
      rewrite Z.gtb_ltb in G. apply Z.ltb_lt in G. lia.
    + apply andb_false_iff in F as [F|F]; apply Z.leb_gt in F; lia.
  - destruct (Security.usec e <=? later)%Z eqn:E; [reflexivity|].
    apply Z.leb_gt in E. lia.
Qed.

Lemma session_token_round_trip_witness :
  Security.validate_session_token sample_hs256 "k" 1000000000
    (Security.jwt_encode sample_hs256
       {| Security.user_id := of_string "ann"; Security.iat := 5;
          Security.exp := Some 86405%Z;
          Security.session_id := of_string "s1" |} "k")
  = Return (Some {| Security.user_id := of_string "ann"; Security.iat := 5;
                    Security.exp := Some 86405%Z;
                    Security.session_id := of_string "s1" |}).
Proof.
  apply (proj1 (@session_token_round_trip sample_hs256 (of_string "k")
                  5000000 1000000000 (of_string "s1") (of_string "ann") 24
                  _ eq_refl)).
  split; [discriminate|reflexivity].
Defined.

(** X12: a token issued with a validity of zero hours or less is never
    accepted at or after its time of issue. *)
Theorem session_token_nonpositive_validity hs256 (secret : str)
        (now later : Z) (sid uid : str) (hours : Z) (t : Security.token) :
  SecurityMore.generate_session_token hs256 secret now sid uid hours
  = Return t ->
  (hours <= 0)%Z -> (now <= later)%Z ->
  Security.validate_session_token hs256 secret later t = Return None.
Proof.
  intros Hg Hh Hl.
  unfold SecurityMore.generate_session_token in Hg.
  destruct ((SecurityMore.datetime_min <=? now + hours * 3600 * 1000000)%Z
            && (now + hours * 3600 * 1000000 <=? SecurityMore.datetime_max)%Z);
    [|discriminate].
  injection Hg as <-.
  pose proof (timegm_bounds (now + hours * 3600 * 1000000)) as B.
  set (e := SecurityMore.timegm (now + hours * 3600 * 1000000)) in *.
  unfold Security.validate_session_token, Security.jwt_decode,
    Security.jwt_encode. simpl. rewrite !str_eqb_refl. simpl.
  destruct (Security.usec e <=? later)%Z eqn:E; [reflexivity|].
  apply Z.leb_gt in E. lia.
Qed.

Lemma session_token_nonpositive_validity_witness :
  Security.validate_session_token sample_hs256 "k" 5000000
    (Security.jwt_encode sample_hs256
       {| Security.user_id := of_string "ann"; Security.iat := 5;
          Security.exp := Some 5%Z;
          Security.session_id := of_string "s1" |} "k")
  = Return None.
Proof.
  apply (@session_token_nonpositive_validity sample_hs256 (of_string "k")
           5000000 5000000 (of_string "s1") (of_string "ann") 0 _ eq_refl).
  - discriminate.
  - discriminate.
Defined.



(** X14: a token whose header names an algorithm other than HS256 yields
    the failure value, whatever its claims and its signature. *)
Theorem session_token_other_algorithm hs256 (secret : str) (now : Z)
        (alg : str) (claims : Security.payload) (sig : str) :
  alg <> of_string "HS256" ->
  Security.validate_session_token hs256 secret now
    (Security.Jwt alg claims sig) = Return None.
Proof.
  intros H. unfold Security.validate_session_token, Security.jwt_decode.
  cbn [existsb]. rewrite (str_eqb_neq H). reflexivity.
Qed.

Lemma session_token_other_algorithm_witness :
  Security.validate_session_token sample_hs256 "k" 0
    (Security.Jwt "none" sample_claims []) = Return None.
Proof. apply session_token_other_algorithm. discriminate. Defined.

(** ** [security.py]: the address allow-list *)

Lemma testbit_above (n i : N) :
  (n < 2 ^ 32)%N -> (32 <= i)%N -> N.testbit n i = false.
Proof.
  intros Hn Hi. destruct (N.eq_dec n 0) as [->|Hz]; [apply N.bits_0|].
  apply N.bits_above_log2.
  assert (N.log2 n < 32)%N by (apply N.log2_lt_pow2; lia). lia.
Qed.

Lemma land_netmask (n p : N) :
  (p <= 32)%N -> (n < 2 ^ 32)%N ->
  N.land n (N.shiftl (N.ones p) (32 - p))
  = N.shiftl (N.shiftr n (32 - p)) (32 - p).
Proof.
  intros Hp Hn. apply N.bits_inj. intros i. rewrite N.land_spec.
  destruct (N.ltb_spec i (32 - p)) as [Hi|Hi].
  - rewrite !N.shiftl_spec_low by exact Hi. apply andb_false_r.
  - rewrite !N.shiftl_spec_high' by exact Hi. rewrite N.shiftr_spec'.
    replace (i - (32 - p) + (32 - p))%N with i by lia.
    destruct (N.ltb_spec (i - (32 - p)) p) as [Hj|Hj].
    + rewrite N.ones_spec_low by exact Hj. apply andb_true_r.
    + rewrite N.ones_spec_high by exact Hj. rewrite andb_false_r.
      symmetry. apply testbit_above; [exact Hn|lia].
Qed.

Lemma ipv4_bound (a b c d : N) :
  (a < 256)%N -> (b < 256)%N -> (c < 256)%N -> (d < 256)%N ->
  (SecurityMore.ipv4 a b c d < 2 ^ 32)%N.
Proof.
  unfold SecurityMore.ipv4. change (2 ^ 32)%N with 4294967296%N. lia.
Qed.

Lemma ipv4_prefix (a b c d : N) :
  (a < 256)%N -> (b < 256)%N -> (c < 256)%N -> (d < 256)%N ->
  N.shiftr (SecurityMore.ipv4 a b c d) 24 = a
  /\ N.shiftr (SecurityMore.ipv4 a b c d) 20 = (a * 16 + b / 16)%N
  /\ N.shiftr (SecurityMore.ipv4 a b c d) 16 = (a * 256 + b)%N.
Proof.
  intros Ha Hb Hc Hd. rewrite !N.shiftr_div_pow2. unfold SecurityMore.ipv4.
  change (2 ^ 24)%N with 16777216%N. change (2 ^ 20)%N with 1048576%N.
  change (2 ^ 16)%N with 65536%N.
  pose proof (N.div_mod b 16 ltac:(lia)) as Eb.
  pose proof (N.mod_lt b 16 ltac:(lia)) as Lb.
  repeat split; symmetry.
  - apply (N.div_unique _ _ _ (b * 65536 + c * 256 + d)); lia.
  - apply (N.div_unique _ _ _ ((b mod 16) * 65536 + c * 256 + d)); lia.
  - apply (N.div_unique _ _ _ (c * 256 + d)); lia.
Qed.

(** X15: [check_ip_whitelist] on a dotted address [a.b.c.d] allows exactly
    the loopback block 127/8 and the private blocks 10/8, 172.16/12 and
    192.168/16; an address that does not parse, and every IPv6 address, is
    refused. *)
Theorem check_ip_whitelist_blocks (ip_address : str -> option SecurityMore.ip)
        (address : str) :
  (ip_address address = None ->
   SecurityMore.check_ip_whitelist ip_address address = false)
  /\ (forall n, ip_address address = Some (SecurityMore.IPv6 n) ->
                SecurityMore.check_ip_whitelist ip_address address = false)
  /\ (forall a b c d,
         (a < 256)%N -> (b < 256)%N -> (c < 256)%N -> (d < 256)%N ->
         ip_address address
         = Some (SecurityMore.IPv4 (SecurityMore.ipv4 a b c d)) ->
         SecurityMore.check_ip_whitelist ip_address address
         = ((a =? 127)%N || (a =? 10)%N
            || ((a =? 172)%N && (16 <=? b)%N && (b <=? 31)%N)
            || ((a =? 192)%N && (b =? 168)%N))).
Proof.
  unfold SecurityMore.check_ip_whitelist. split; [|split].
  - now intros ->.
  - now intros n ->.
  - intros a b c d Ha Hb Hc Hd ->.
    pose proof (ipv4_bound Ha Hb Hc Hd) as Hn.
    destruct (ipv4_prefix Ha Hb Hc Hd) as (P24 & P20 & P16).
    unfold SecurityMore.allowed_ip_ranges, existsb, SecurityMore.contains,
      SecurityMore.netmask, SecurityMore.network_address,
      SecurityMore.prefixlen.
    rewrite !land_netmask by (exact Hn || lia).
    change (32 - 8)%N with 24%N. change (32 - 12)%N with 20%N.
    change (32 - 16)%N with 16%N.
    rewrite P24, P20, P16, !N.shiftl_mul_pow2.
    change (2 ^ 24)%N with 16777216%N. change (2 ^ 20)%N with 1048576%N.
    change (2 ^ 16)%N with 65536%N.
    change (SecurityMore.ipv4 127 0 0 0) with 2130706432%N.
    change (SecurityMore.ipv4 10 0 0 0) with 167772160%N.
    change (SecurityMore.ipv4 172 16 0 0) with 2886729728%N.
    change (SecurityMore.ipv4 192 168 0 0) with 3232235520%N.
    rewrite orb_false_r.
    pose proof (N.div_mod b 16 ltac:(lia)) as Eb.
    pose proof (N.mod_lt b 16 ltac:(lia)) as Lb.
    clear Hn P24 P20 P16.
    set (q := (b / 16)%N) in *. set (r := (b mod 16)%N) in *.
    clearbody q r.
    repeat match goal with
           | |- context [N.eqb ?x ?y] => destruct (N.eqb_spec x y)
           | |- context [N.leb ?x ?y] => destruct (N.leb_spec x y)
           end; simpl; try reflexivity; exfalso; lia.
Qed.

Lemma check_ip_whitelist_blocks_witness :
  SecurityMore.check_ip_whitelist
    (fun _ => Some (SecurityMore.IPv4 (SecurityMore.ipv4 172 20 1 9)))
    "172.20.1.9" = true.
Proof.
  apply (proj2 (proj2 (check_ip_whitelist_blocks
           (fun _ => Some (SecurityMore.IPv4 (SecurityMore.ipv4 172 20 1 9)))
           (of_string "172.20.1.9"))) 172%N 20%N 1%N 9%N);
    reflexivity.
Defined.

(** ** [security.py]: the client address and the input guard *)

Lemma in_lstrip_by p (c : ascii) (s : str) :
  In c (lstrip_by p s) -> In c s.
Proof.
  induction s as [|x s IH]; simpl; [auto|].
  destruct (p x); [auto|]. simpl. auto.
Qed.

Lemma in_strip (c : ascii) (s : str) : In c (strip s) -> In c s.
Proof.
  unfold strip, rstrip_by. intros H. apply in_rev in H.
  apply in_lstrip_by in H. apply in_rev in H. now apply in_lstrip_by in H.
Qed.

Lemma before_comma_no_comma (s : str) :
  ~ In ","%char (SecurityMore.before_comma s).
Proof.
  induction s as [|x s IH]; simpl; [auto|].
  destruct (Ascii.eqb x ","%char) eqn:E; [auto|].
  simpl. intros [->|H]; [discriminate|auto].
Qed.

(** X16: when the request carries a non-empty [X-Forwarded-For] header the
    client address is the trimmed first entry of that header, free of
    commas and of surrounding blanks, and the allow-list decision depends
    on that header alone: [X-Real-IP] and the socket address are not
    looked at.  Without it, a non-empty [X-Real-IP] is returned as it is,
    and otherwise the socket address. *)
Theorem client_ip_from_headers (ip_address : str -> option SecurityMore.ip)
        (r : SecurityMore.request) :
  (forall f, SecurityMore.x_forwarded_for r = Some f -> f <> [] ->
     SecurityMore.get_client_ip r = strip (SecurityMore.before_comma f)
     /\ ~ In ","%char (SecurityMore.get_client_ip r)
     /\ forall r', SecurityMore.x_forwarded_for r' = Some f ->
          SecurityMore.ip_check_passes ip_address r'
          = SecurityMore.ip_check_passes ip_address r)
  /\ (SecurityMore.x_forwarded_for r = None
      \/ SecurityMore.x_forwarded_for r = Some [] ->
      (forall real, SecurityMore.x_real_ip r = Some real -> real <> [] ->
                    SecurityMore.get_client_ip r = real)
      /\ (SecurityMore.x_real_ip r = None
          \/ SecurityMore.x_real_ip r = Some [] ->
          SecurityMore.get_client_ip r = SecurityMore.remote_addr r)).
Proof.
  split.
  - intros f Hf Hne.
    assert (E : forall r', SecurityMore.x_forwarded_for r' = Some f ->
              SecurityMore.get_client_ip r'
              = strip (SecurityMore.before_comma f)).
    { intros r' H'. unfold SecurityMore.get_client_ip. rewrite H'.
      destruct f; [congruence|reflexivity]. }
    split; [now apply E|]. split.
    + rewrite (E r Hf). intros H. apply in_strip in H.
      exact (before_comma_no_comma f H).
    + intros r' H'. unfold SecurityMore.ip_check_passes.
      now rewrite (E r Hf), (E r' H').
  - intros Hf. unfold SecurityMore.get_client_ip. split.
    + intros real Hr Hne. destruct Hf as [-> | ->]; rewrite Hr;
        destruct real; congruence.
    + intros Hr. destruct Hf as [-> | ->]; destruct Hr as [-> | ->];
        reflexivity.
Qed.

Lemma client_ip_from_headers_witness :
  SecurityMore.get_client_ip
    {| SecurityMore.x_forwarded_for := Some (of_string " 10.0.0.7 , 8.8.8.8");
       SecurityMore.x_real_ip := Some (of_string "203.0.113.5");
       SecurityMore.remote_addr := of_string "198.51.100.9" |}
  = of_string "10.0.0.7".
Proof.
  rewrite (proj1 (proj1 (client_ip_from_headers (fun _ => None)
       {| SecurityMore.x_forwarded_for := Some (of_string " 10.0.0.7 , 8.8.8.8");
          SecurityMore.x_real_ip := Some (of_string "203.0.113.5");
          SecurityMore.remote_addr := of_string "198.51.100.9" |})
                    (of_string " 10.0.0.7 , 8.8.8.8") eq_refl
                    ltac:(discriminate))).
  reflexivity.
Defined.

(** X17: the input guard lets the handler run exactly when every
    top-level string of the JSON object passes the scanner; values that
    are not strings, nested objects and arrays included, are not scanned.
    When it refuses, it names the first failing field in the order of the
    object, with the warnings of the scanner for that field. *)
Theorem input_guard_scans_top_level_strings (m : Z)
        (items : list (str * SecurityMore.json)) :
  (SecurityMore.check_items m items = SecurityMore.Handled <->
   forall k v, In (k, SecurityMore.JString v) items ->
               Security.valid (scan v m) = true)
  /\ (forall k w,
         SecurityMore.check_items m items = SecurityMore.Rejected k w ->
         exists v front back,
           items = front ++ (k, SecurityMore.JString v) :: back
           /\ Security.valid (scan v m) = false
           /\ w = Security.warnings (scan v m)
           /\ forall k' v', In (k', SecurityMore.JString v') front ->
                            Security.valid (scan v' m) = true).
Proof.
  induction items as [|[key [value|]] items [IH1 IH2]]; simpl.
  - split; [split; [intros _ k v []|reflexivity]|discriminate].
  - fold (scan value m).
    destruct (Security.valid (scan value m)) eqn:E; simpl; split.
    + rewrite IH1. split.
      * intros H k v [[= -> ->]|Hin]; eauto.
      * intros H k v Hin. apply (H k v). now right.
    + intros k w H. destruct (IH2 k w H) as (v & front & back & -> & ? & ? & Hf).
      exists v, ((key, SecurityMore.JString value) :: front), back.
      repeat split; auto. intros k' v' [[= -> ->]|Hin]; eauto.
    + split; [discriminate|]. intros H.
      rewrite (H key value) in E by now left. discriminate.
    + intros k w [= <- <-]. exists value, [], items. repeat split; auto.
  - split.
    + rewrite IH1. split.
      * intros H k v [Hin|Hin]; [discriminate|eauto].
      * intros H k v Hin. apply (H k v). now right.
    + intros k w H. destruct (IH2 k w H) as (v & front & back & -> & ? & ? & Hf).
      exists v, ((key, SecurityMore.JOther) :: front), back.
      repeat split; auto. intros k' v' [Hin|Hin]; [discriminate|eauto].
Qed.

Lemma input_guard_scans_top_level_strings_witness :
  exists v front back,
    [(of_string "n", SecurityMore.JOther);
     (of_string "q", SecurityMore.JString "a; b")]
    = front ++ (of_string "q", SecurityMore.JString v) :: back
    /\ Security.valid (scan v 1000) = false
    /\ [Security.warn_sql] = Security.warnings (scan v 1000)
    /\ forall k' v', In (k', SecurityMore.JString v') front ->
                     Security.valid (scan v' 1000) = true.
Proof.
  apply (proj2 (input_guard_scans_top_level_strings 1000
                  [(of_string "n", SecurityMore.JOther);
                   (of_string "q", SecurityMore.JString "a; b")])).
  vm_compute. reflexivity.
Defined.

(** ** [database.py]: what a call does to the pool and the cursor *)

Ltac driver_cases d q p :=
  let b := fresh "b" in
  destruct d as [b ? ?]; destruct b as [gc cu ex fe de cl rb pc];
  cbn [DatabaseTrace.base Database.getconn Database.cursor Database.execute
       Database.fetchall Database.description Database.close
       Database.rollback Database.putconn DatabaseTrace.commit
       DatabaseTrace.rowcount] in *;
  destruct gc as [[|]|?]; destruct cu as [[]|?];
  destruct (ex (of_string "SET statement_timeout = '30s'") None)
    as [[]|?] eqn:?;
  destruct (ex q (DatabaseTrace.effective p)) as [[]|?] eqn:?;
  destruct fe as [?|?]; destruct de as [?|];
  destruct cl as [[]|?]; destruct rb as [[]|?]; destruct pc as [[]|?].

Ltac unfold_trace :=
  unfold DatabaseTrace.execute_query, DatabaseTrace.execute_update,
    DatabaseTrace.with_connection, DatabaseTrace.with_cursor,
    DatabaseTrace.run_statement, DatabaseTrace.run_update,
    DatabaseTrace.tbind, DatabaseTrace.tfinally, DatabaseTrace.call,
    DatabaseTrace.tret, DatabaseTrace.count, DatabaseTrace.set_timeout;
  cbn [DatabaseTrace.base Database.getconn Database.cursor Database.execute
       Database.fetchall Database.description Database.close
       Database.rollback Database.putconn DatabaseTrace.commit
       DatabaseTrace.rowcount].

Lemma truthy_effective d (q : str) p :
  (if Database.truthy p then Database.execute d q p
   else Database.execute d q None)
  = Database.execute d q (DatabaseTrace.effective p).
Proof. destruct p as [[|v p]|]; reflexivity. Qed.

(** The traced call returns what [Database.execute_query] returns. *)
Lemma traced_execute_query_result d (q : str) p :
  snd (DatabaseTrace.execute_query d q p)
  = Database.execute_query (DatabaseTrace.base d) q p.
Proof.
  unfold Database.execute_query, Database.with_connection,
    Database.with_cursor, Database.run_statement, finally, bind.
  rewrite truthy_effective. unfold_trace.
  driver_cases d q p;
    repeat match goal with
           | H : _ = _ |- _ => rewrite H
           end;
    cbn; repeat match goal with e : Database.exn |- _ => destruct e end;
    reflexivity.
Qed.

(** X18: [execute_query] never leaks a connection.  When the pool hands
    out a connection, the call starts by taking it and ends, on every
    path, by returning it to the pool, exactly once; the connection is
    rolled back exactly when the guarded block raised.  When the pool
    hands out nothing, taking the connection is the only operation. *)
Theorem execute_query_returns_connection d (q : str) p :
  let tr := fst (DatabaseTrace.execute_query d q p) in
  snd (DatabaseTrace.execute_query d q p)
  = Database.execute_query (DatabaseTrace.base d) q p
  /\ (Database.getconn (DatabaseTrace.base d) = Return true ->
      hd_error tr = Some DatabaseTrace.GetConn
      /\ last tr DatabaseTrace.GetConn = DatabaseTrace.PutConn
      /\ DatabaseTrace.count DatabaseTrace.GetConn tr = 1
      /\ DatabaseTrace.count DatabaseTrace.PutConn tr = 1
      /\ DatabaseTrace.count DatabaseTrace.Rollback tr
         = match Database.with_cursor (DatabaseTrace.base d)
                   (Database.run_statement (DatabaseTrace.base d) q p) with
           | Return _ => 0
           | Raise _ => 1
           end)
  /\ (Database.getconn (DatabaseTrace.base d) <> Return true ->
      tr = [DatabaseTrace.GetConn]).
Proof.
  cbv zeta. split; [apply traced_execute_query_result|].
  unfold Database.with_cursor, Database.run_statement, finally, bind.
  rewrite truthy_effective. unfold_trace.
  driver_cases d q p;
    repeat match goal with
           | H : _ = _ |- _ => rewrite H
           end;
    cbn; (split; [intros H; try discriminate H; repeat split; reflexivity
                 |intros H; try reflexivity; exfalso; now apply H]).
Qed.

Lemma execute_query_returns_connection_witness :
  hd_error (fst (DatabaseTrace.execute_query
                   {| DatabaseTrace.base := failing_driver;
                      DatabaseTrace.commit := Return tt;
                      DatabaseTrace.rowcount := 0 |} "SELECT 1" None))
  = Some DatabaseTrace.GetConn
  /\ last (fst (DatabaseTrace.execute_query
                  {| DatabaseTrace.base := failing_driver;
                     DatabaseTrace.commit := Return tt;
                     DatabaseTrace.rowcount := 0 |} "SELECT 1" None))
          DatabaseTrace.GetConn = DatabaseTrace.PutConn.
Proof.
  destruct (proj1 (proj2 (execute_query_returns_connection
                     {| DatabaseTrace.base := failing_driver;
                        DatabaseTrace.commit := Return tt;
                        DatabaseTrace.rowcount := 0 |}
                     (of_string "SELECT 1") None)) eq_refl)
    as (H1 & H2 & _).
  split; [exact H1|exact H2].
Defined.

(** X19: the statement timeout comes first.  The statements the call
    sends are the [SET statement_timeout] and then, only when that one
    succeeded, the query, once, with its parameters when the tuple is not
    empty; nothing is sent without a connection and a cursor. *)
Theorem execute_query_timeout_first d (q : str) p :
  let tr := fst (DatabaseTrace.execute_query d q p) in
  let b := DatabaseTrace.base d in
  filter DatabaseTrace.is_execute tr
  = match Database.getconn b, Database.cursor b with
    | Return true, Return _ =>
        match Database.execute b DatabaseTrace.set_timeout None with
        | Return _ =>
            [DatabaseTrace.Execute DatabaseTrace.set_timeout None;
             DatabaseTrace.Execute q (DatabaseTrace.effective p)]
        | Raise _ => [DatabaseTrace.Execute DatabaseTrace.set_timeout None]
        end
    | _, _ => []
    end.
Proof.
  cbv zeta. unfold_trace.
  driver_cases d q p;
    repeat match goal with
           | H : _ = _ |- _ => rewrite H
           end;
    reflexivity.
Qed.

Lemma dict_set_fresh (row : Database.row) (k : str) (v : Database.value) :
  ~ In k (map fst row) -> Database.dict_set row k v = row ++ [(k, v)].
Proof.
  induction row as [|[k' v'] row IH]; simpl; [reflexivity|].
  intros H. destruct (PyStr.eqb k' k) eqn:E.
  - apply str_eqb_eq in E. subst. elim H. now left.
  - rewrite IH; [reflexivity|]. intros Hin. apply H. now right.
Qed.

Lemma dict_zip_distinct_acc (kvs acc : Database.row) :
  NoDup (map fst (acc ++ kvs)) ->
  fold_left (fun d kv => Database.dict_set d (fst kv) (snd kv)) kvs acc
  = acc ++ kvs.
Proof.
  revert acc. induction kvs as [|[k v] kvs IH]; intros acc H; simpl.
  - now rewrite app_nil_r.
  - rewrite dict_set_fresh.
    + rewrite IH; rewrite <- app_assoc; [reflexivity|exact H].
    + rewrite map_app in H. simpl in H. apply NoDup_remove_2 in H.
      intros Hin. apply H. apply in_or_app. now left.
Qed.

(** X20: on success the call returns one dictionary per fetched row, in
    order; when the column names are distinct, the dictionary of a row
    pairs the names with the values of the row in column order, stopping
    at the shorter of the two. *)
Theorem execute_query_rows_shape d (q : str) p rows :
  Database.execute_query d q p = Return (Some rows) ->
  exists names results,
    Database.description d = Some names
    /\ Database.fetchall d = Return results
    /\ rows = map (Database.dict_zip names) results
    /\ List.length rows = List.length results
    /\ (NoDup names ->
        forall r, Database.dict_zip names r = combine names r).
Proof.
  intros H. apply execute_query_rows in H as (_ & _ & H & _).
  unfold Database.run_statement, bind in H.
  destruct (Database.execute d _ None) as [[]|]; [|discriminate].
  destruct (if Database.truthy p then _ else _) as [[]|]; [|discriminate].
  destruct (Database.fetchall d) as [results|]; [|discriminate].
  destruct (Database.description d) as [names|]; [|discriminate].
  injection H as <-. exists names, results.
  repeat split; auto using length_map.
  intros Hn r. unfold Database.dict_zip.
  rewrite dict_zip_distinct_acc; [reflexivity|]. simpl.
  revert r. induction Hn as [|k names Hk Hn IH]; intros r; simpl.
  - constructor.
  - destruct r as [|v r]; simpl; [constructor|]. constructor; [|apply IH].
    intros Hin. apply Hk. clear -Hin. revert r Hin.
    induction names as [|k' names IHn]; intros [|v' r] Hin; simpl in *;
      try contradiction.
    destruct Hin as [->|Hin]; [now left|right; eauto].
Qed.

Lemma execute_query_rows_shape_witness :
  exists names results,
    Database.description Samples.answering_driver = Some names
    /\ Database.fetchall Samples.answering_driver = Return results
    /\ [[(of_string "id", Database.VInt 1);
         (of_string "name", Database.VText "ann")];
        [(of_string "id", Database.VInt 2);
         (of_string "name", Database.VText "bob")]]
       = map (Database.dict_zip names) results
    /\ 2 = List.length results
    /\ (NoDup names ->
        forall r, Database.dict_zip names r = combine names r).
Proof.
  apply (@execute_query_rows_shape Samples.answering_driver
           (of_string "SELECT id, name FROM t") None).
  reflexivity.
Defined.

(** X21: [execute_update] never raises and answers either the row count
    of the cursor or [-1].  The commit is attempted only after the timeout
    statement and the update statement both succeeded; when any operation
    of the block raises, the commit included, the answer is [-1] and the
    connection is rolled back before it goes back to the pool. *)
Theorem execute_update_commit_or_minus_one d (q : str) p :
  let tr := fst (DatabaseTrace.execute_update d q p) in
  let b := DatabaseTrace.base d in
  (snd (DatabaseTrace.execute_update d q p)
   = Return (DatabaseTrace.rowcount d)
   \/ snd (DatabaseTrace.execute_update d q p) = Return (-1)%Z)
  /\ (In DatabaseTrace.Commit tr ->
      Database.execute b DatabaseTrace.set_timeout None = Return tt
      /\ Database.execute b q (DatabaseTrace.effective p) = Return tt)
  /\ (forall e, DatabaseTrace.commit d = Raise e ->
                In DatabaseTrace.Commit tr ->
                snd (DatabaseTrace.execute_update d q p) = Return (-1)%Z
                /\ In DatabaseTrace.Rollback tr
                /\ last tr DatabaseTrace.GetConn = DatabaseTrace.PutConn).
Proof.
  cbv zeta. unfold_trace.
  destruct (DatabaseTrace.commit d) as [[]|ec] eqn:Ec.
  all: driver_cases d q p;
    cbn [DatabaseTrace.commit DatabaseTrace.rowcount] in *;
    repeat match goal with
           | H : _ = _ |- _ => rewrite H
           end;
    cbn; (split; [auto|]);
    (split; [intros H; repeat (destruct H as [H|H]; try discriminate H);
             try contradiction; auto
            |intros err He; try discriminate He; intros H;
             repeat (destruct H as [H|H]; try discriminate H);
             try contradiction; repeat split; auto 20]).
Qed.

Lemma execute_update_commit_or_minus_one_witness :
  snd (DatabaseTrace.execute_update Samples.no_commit_driver
         "UPDATE t SET n = 1" None) = Return (-1)%Z
  /\ In DatabaseTrace.Rollback
        (fst (DatabaseTrace.execute_update Samples.no_commit_driver
                "UPDATE t SET n = 1" None)).
Proof.
  destruct (proj2 (proj2 (execute_update_commit_or_minus_one
                     Samples.no_commit_driver
                     (of_string "UPDATE t SET n = 1") None))
              (Database.Psycopg2Error "read-only") eq_refl)
    as (H1 & H2 & _).
  - vm_compute. auto 20.
  - split; [exact H1|exact H2].
Defined.

(** ** [app.py]: the chat route as a whole *)






(** ** [utils.py]: [clean_text] *)

Lemma collapse_ws_blanks (b : bool) (s : str) (c : ascii) :
  In c (UtilsMore.collapse_ws b s) ->
  (isspace c = true -> c = " "%char) /\ (c = " "%char \/ In c s).
Proof.
  revert b. induction s as [|x s IH]; intros b; simpl; [intros []|].
  destruct (isspace x) eqn:Hx.
  - destruct b; simpl.
    + intros H. destruct (IH true H) as [H1 [H2|H2]]; auto.
    + intros [<-|H]; [auto|]. destruct (IH true H) as [H1 [H2|H2]]; auto.
  - simpl. intros [<-|H].
    + split; [congruence|auto].
    + destruct (IH false H) as [H1 [H2|H2]]; auto.
Qed.

Lemma in_firstn (n : nat) (s : str) (c : ascii) :
  In c (firstn n s) -> In c s.
Proof.
  intros H. rewrite <- (firstn_skipn n s). apply in_or_app. now left.
Qed.

(** X24: the text returned by [clean_text] holds no NUL character, no
    blank other than the plain space (tabs, line ends and the other
    blanks are gone), and at most 2003 characters. *)
Theorem clean_text_shape (text : str) :
  ~ In "000"%char (UtilsMore.clean_text text)
  /\ (forall c, In c (UtilsMore.clean_text text) -> isspace c = true ->
                c = " "%char)
  /\ (len (UtilsMore.clean_text text) <= 2003)%Z.
Proof.
  unfold UtilsMore.clean_text. destruct text as [|c0 text].
  { split; [intros []|split; [intros c []|unfold len; simpl; lia]]. }
  set (a := UtilsMore.collapse_ws false (strip (c0 :: text))).
  set (b := UtilsMore.remove_char "000"%char a).
  assert (Hb0 : ~ In "000"%char b).
  { unfold b, UtilsMore.remove_char. intros H. apply filter_In in H as [_ H].
    discriminate. }
  assert (Hb1 : forall c, In c b -> isspace c = true -> c = " "%char).
  { intros c H. unfold b, UtilsMore.remove_char in H.
    apply filter_In in H as [H _]. now apply (collapse_ws_blanks false _ _ H). }
  destruct (len b >? 2000)%Z eqn:E.
  - split; [|split].
    + intros H. apply in_app_or in H as [H|H].
      * apply Hb0. eapply in_firstn, H.
      * simpl in H. intuition discriminate.
    + intros c H Hc. apply in_app_or in H as [H|H].
      * apply Hb1; [eapply in_firstn, H|exact Hc].
      * simpl in H. destruct H as [<-|[<-|[<-|[]]]]; discriminate.
    + unfold len. rewrite length_app.
      pose proof (firstn_le_length 2000 b) as Hf.
      change (List.length (of_string "...")) with 3%nat. lia.
  - split; [exact Hb0|split; [exact Hb1|]].
    rewrite Z.gtb_ltb in E. apply Z.ltb_ge in E. lia.
Qed.

Lemma clean_text_shape_witness :
  " "%char = " "%char.
Proof.
  apply (proj1 (proj2 (clean_text_shape
                         ["a"; "009"; "010"; "000"; "b"]%char))).
  - vm_compute. auto.
  - reflexivity.
Defined.

(** ** [openai_service.py]: the statement read out of the answer *)

Lemma upper_char_letter (k c : ascii) :
  isupper_ascii k = true ->
  hd_error (upper_char c) = Some (code k) ->
  (upper_char c = [code k] /\ lower_ascii c = lower_ascii k)
  \/ (upper_char c = [83; 83]%N /\ k = "S"%char).
Proof.
  intros Hk Hh.
  pose (Q := fun k c =>
    implb (isupper_ascii k
           && match upper_char c with
              | x :: _ => N.eqb x (code k)
              | [] => false
              end)
          ((SqlParse.codes_eqb (upper_char c) [code k]
            && Ascii.eqb (lower_ascii c) (lower_ascii k))
           || (SqlParse.codes_eqb (upper_char c) [83; 83]%N
               && Ascii.eqb k "S"%char))).
  assert (HQ : forallb (fun k => forallb (Q k) all_ascii) all_ascii = true)
    by (vm_compute; reflexivity).
  pose proof (ascii_forall _ (ascii_forall _ HQ k) c) as H.
  unfold Q in H. rewrite Hk in H.
  destruct (upper_char c) as [|x l] eqn:Eu; [discriminate|].
  injection Hh as ->. rewrite N.eqb_refl in H. simpl in H.
  apply orb_true_iff in H as [H|H]; apply andb_true_iff in H as [H1 H2];
    apply Ascii.eqb_eq in H2;
    unfold SqlParse.codes_eqb in H1;
    destruct (list_eq_dec N.eq_dec _ _) as [E|E]; try discriminate; auto.
Qed.

Lemma starts_with_upper_step (k : ascii) (kw q : str) :
  isupper_ascii k = true ->
  (k = "S"%char -> exists k2 kw', kw = k2 :: kw' /\ k2 <> "S"%char) ->
  OpenAI.starts_with_codes (code k :: codes kw) (upper q) = true ->
  exists c q', q = c :: q' /\ lower_ascii c = lower_ascii k
               /\ OpenAI.starts_with_codes (codes kw) (upper q') = true.
Proof.
  intros Hk HS H. destruct q as [|c q']; [discriminate|].
  unfold upper in H. simpl in H. fold (upper q') in H.
  destruct (upper_char c) as [|x l] eqn:Eu; simpl in H.
  - exfalso.
    pose proof (ascii_forall
      (fun c => match upper_char c with [] => false | _ => true end)
      ltac:(vm_compute; reflexivity) c) as Hn.
    cbv beta in Hn. now rewrite Eu in Hn.
  - apply andb_true_iff in H as [Hx H]. apply N.eqb_eq in Hx. subst x.
    destruct (@upper_char_letter k c Hk) as [[E1 E2]|[E1 E2]].
    + now rewrite Eu.
    + rewrite Eu in E1. injection E1 as ->. exists c, q'. auto.
    + exfalso. rewrite Eu in E1. injection E1 as _ ->.
      destruct (HS E2) as (k2 & kw' & -> & Hk2). simpl in H.
      apply andb_true_iff in H as [H _]. apply N.eqb_eq in H.
      apply Hk2. unfold code in H. apply (f_equal ascii_of_N) in H.
      rewrite ascii_N_embedding in H. now rewrite H.
Qed.

(** X25: a statement that [_extract_sql_from_response] returns is not
    empty, has no blank at either end, and begins with the word SELECT in
    some mix of upper and lower case; an absent or empty answer of the
    model gives no statement. *)
Theorem extracted_sql_starts_with_select (response q : str) :
  OpenAI._extract_sql_from_response response = Some q ->
  q <> [] /\ strip q = q
  /\ same_ignoring_case (of_string "SELECT") (firstn 6 q)
  /\ OpenAI.natural_language_to_sql None = None
  /\ OpenAI.natural_language_to_sql (Some []) = None.
Proof.
  unfold OpenAI._extract_sql_from_response.
  set (x := match OpenAI.fenced response with
            | Some body => body
            | None => strip response
            end).
  destruct (OpenAI.starts_with_codes (codes "SELECT")
              (upper (strip (OpenAI.strip_semicolons x)))) eqn:E;
    [|discriminate].
  simpl. intros [= <-].
  set (y := strip (OpenAI.strip_semicolons x)) in *.
  assert (Hs : same_ignoring_case (of_string "SELECT") (firstn 6 y)).
  { change (codes "SELECT")
      with (code "S" :: codes (of_string "ELECT")) in E.
    apply starts_with_upper_step in E
      as (c1 & q1 & -> & L1 & E);
      [|reflexivity|intros _; exists "E"%char, (of_string "LECT");
                    split; [reflexivity|discriminate]].
    change (codes (of_string "ELECT"))
      with (code "E" :: codes (of_string "LECT")) in E.
    apply starts_with_upper_step in E
      as (c2 & q2 & -> & L2 & E); [|reflexivity|discriminate].
    change (codes (of_string "LECT"))
      with (code "L" :: codes (of_string "ECT")) in E.
    apply starts_with_upper_step in E
      as (c3 & q3 & -> & L3 & E); [|reflexivity|discriminate].
    change (codes (of_string "ECT"))
      with (code "E" :: codes (of_string "CT")) in E.
    apply starts_with_upper_step in E
      as (c4 & q4 & -> & L4 & E); [|reflexivity|discriminate].
    change (codes (of_string "CT"))
      with (code "C" :: codes (of_string "T")) in E.
    apply starts_with_upper_step in E
      as (c5 & q5 & -> & L5 & E); [|reflexivity|discriminate].
    change (codes (of_string "T")) with (code "T" :: codes []) in E.
    apply starts_with_upper_step in E
      as (c6 & q6 & -> & L6 & E); [|reflexivity|discriminate].
    simpl. repeat constructor; auto. }
  split; [|split; [apply strip_idempotent|split; [exact Hs|split; reflexivity]]].
  intros Hy. rewrite Hy in Hs. inversion Hs.
Qed.

Lemma extracted_sql_starts_with_select_witness :
  of_string "select 1" <> [] /\ strip "select 1" = of_string "select 1"
  /\ same_ignoring_case (of_string "SELECT") (firstn 6 (of_string "select 1"))
  /\ OpenAI.natural_language_to_sql None = None
  /\ OpenAI.natural_language_to_sql (Some []) = None.
Proof.
  apply (@extracted_sql_starts_with_select
           (of_string "Here you go: ```sql select 1; ```")).
  vm_compute. reflexivity.
Defined.

(** ** [security.py]: [require_valid_session] *)

Lemma starts_with_split (p s : str) :
  SqlParse.starts_with p s = true -> s = p ++ skipn (List.length p) s.
Proof.
  unfold SqlParse.starts_with. intros H. apply str_eqb_eq in H.
  rewrite <- (firstn_skipn (List.length p) s) at 1. now rewrite <- H.
Qed.

(** X26: the session guard lets a request through only when its
    [Authorization] header begins with [Bearer ], with that exact case,
    and the text up to the next space is a token that
    [validate_session_token] accepts under the guard's secret; the user
    and session it hands to the handler are those of the token's payload,
    whose signature is the HS256 signature of its claims and whose expiry
    is not in the past.  A missing or empty header is answered 401. *)
Theorem session_guard_authorizes_valid_tokens hs256 read_token
        (secret : str) (now : Z) (authorization : option str) (u s : str) :
  SessionGuard.require_valid_session hs256 read_token secret now authorization
  = SessionGuard.Authorized u s ->
  exists rest p e,
    authorization = Some (of_string "Bearer " ++ rest)
    /\ read_token (SessionGuard.before_space rest)
       = Security.Jwt "HS256" p (hs256 secret p)
    /\ Security.exp p = Some e /\ (now <= Security.usec e)%Z
    /\ u = Security.user_id p /\ s = Security.session_id p.
Proof.
  unfold SessionGuard.require_valid_session.
  destruct authorization as [[|c h]|]; try discriminate.
  destruct (SqlParse.starts_with "Bearer " (c :: h)) eqn:Hb;
    [|discriminate]. cbn [negb].
  apply starts_with_split in Hb. unfold SessionGuard.bearer_token.
  change (List.length (of_string "Bearer ")) with 7 in Hb.
  set (rest := skipn 7 (c :: h)) in *.
  destruct (Security.validate_session_token hs256 secret now
              (read_token (SessionGuard.before_space rest)))
    as [[p|]|err] eqn:Hv; try discriminate.
  intros [= <- <-].
  destruct (Security.jwt_decode hs256 now
              (read_token (SessionGuard.before_space rest)) secret
              [of_string "HS256"]) as [q|err] eqn:D.
  2:{ rewrite (decode_failure_is_none _ _ _ _ D) in Hv. discriminate. }
  unfold Security.validate_session_token in Hv. rewrite D in Hv.
  unfold Security.jwt_decode in D.
  destruct (read_token (SessionGuard.before_space rest))
    as [|alg claims sig] eqn:Hr; [discriminate|].
  destruct (existsb (PyStr.eqb alg) [of_string "HS256"]) eqn:Ha;
    [|discriminate]. cbn [existsb] in Ha. rewrite orb_false_r in Ha.
  apply str_eqb_eq in Ha. subst alg. cbn [negb] in D.
  destruct (PyStr.eqb sig (hs256 secret claims)) eqn:Hs; [|discriminate].
  apply str_eqb_eq in Hs. subst sig. cbn [negb] in D.
  destruct (Security.exp claims) as [e|] eqn:He.
  - destruct (Security.usec e <=? now)%Z eqn:Hn; [discriminate|].
    injection D as <-. rewrite He in Hv. simpl in Hv.
    unfold Security.fromtimestamp in Hv.
    destruct ((-62135596800 <=? e)%Z && (e <=? 253402300799)%Z)%bool;
      [|discriminate]. simpl in Hv.
    destruct (now >? Security.usec e)%Z; [discriminate|].
    injection Hv as <-. exists rest, claims, e.
    apply Z.leb_gt in Hn.
    split; [now rewrite Hb at 1|]. split; [exact Hr|].
    split; [exact He|]. split; [lia|]. split; reflexivity.
  - injection D as <-. rewrite He in Hv. discriminate.
Qed.

Lemma session_guard_authorizes_valid_tokens_witness :
  exists rest p e,
    Some (of_string "Bearer abc") = Some (of_string "Bearer " ++ rest)
    /\ Security.jwt_encode sample_hs256 sample_claims "k"
       = Security.Jwt "HS256" p (sample_hs256 "k" p)
    /\ Security.exp p = Some e /\ (1000 <= Security.usec e)%Z
    /\ of_string "ann" = Security.user_id p
    /\ of_string "s1" = Security.session_id p.
Proof.
  apply (@session_guard_authorizes_valid_tokens sample_hs256
           (fun _ => Security.jwt_encode sample_hs256 sample_claims "k")
           (of_string "k") 1000 (Some (of_string "Bearer abc"))).
  vm_compute. reflexivity.
Defined.

(** ** [database.py]: [get_schema_info] *)

Lemma set_item_length (d : Schema.table_dict) k v :
  List.length d <= List.length (Schema.set_item d k v) <= S (List.length d).
Proof.
  induction d as [|[k' v'] d IH]; simpl; [lia|].
  destruct (Schema.value_eqb k' k); simpl; lia.
Qed.

Lemma add_table_effect exec (s s' : Schema.schema_info) (table : Database.row) :
  Schema.add_table exec s table = Some s' ->
  Schema.total_columns s'
  = Schema.total_columns s + Schema.columns_of exec table
  /\ List.length (Schema.tables s') + List.length (Schema.views s')
     <= S (List.length (Schema.tables s) + List.length (Schema.views s))
  /\ (exists n t c, Schema.getitem table "table_name" = Some n
                    /\ Schema.getitem table "table_type" = Some t
                    /\ Schema.getitem table "table_schema" = Some c).
Proof.
  unfold Schema.add_table, Schema.columns_of.
  destruct (Schema.getitem table "table_name") as [n|]; [|discriminate].
  destruct (Schema.getitem table "table_type") as [t|]; [|discriminate].
  destruct (Schema.getitem table "table_schema") as [c|]; [|discriminate].
  intros [= <-].
  match goal with
  | |- context [Schema.value_eqb ?a ?b] => destruct (Schema.value_eqb a b)
  end; cbn [Schema.total_columns Schema.tables Schema.views
            Schema.column_count];
    (split; [reflexivity|split; [|exists n, t, c; auto]]);
    match goal with
    | |- context [Schema.set_item ?d ?k ?v] =>
        pose proof (set_item_length d k v)
    end; lia.
Qed.

Lemma add_tables_effect exec (rows : list Database.row) :
  forall s s',
    Schema.add_tables exec s rows = Some s' ->
    Schema.total_columns s'
    = Schema.total_columns s + list_sum (map (Schema.columns_of exec) rows)
    /\ List.length (Schema.tables s') + List.length (Schema.views s')
       <= List.length (Schema.tables s) + List.length (Schema.views s)
          + List.length rows.
Proof.
  induction rows as [|table rows IH]; intros s s'; simpl.
  - intros [= <-]. lia.
  - destruct (Schema.add_table exec s table) as [s1|] eqn:E; [|discriminate].
    intros H. apply IH in H as [H1 H2].
    apply add_table_effect in E as (E1 & E2 & _). lia.
Qed.

Lemma add_tables_defined exec (rows : list Database.row) :
  (forall table, In table rows ->
     Schema.getitem table "table_name" <> None
     /\ Schema.getitem table "table_type" <> None
     /\ Schema.getitem table "table_schema" <> None) ->
  forall s, Schema.add_tables exec s rows <> None.
Proof.
  induction rows as [|table rows IH]; intros H s; simpl; [discriminate|].
  destruct (Schema.add_table exec s table) as [s1|] eqn:E.
  - apply IH. intros t Ht. apply H. now right.
  - exfalso. destruct (H table (or_introl eq_refl)) as (H1 & H2 & H3).
    unfold Schema.add_table in E.
    destruct (Schema.getitem table "table_name"); [|congruence].
    destruct (Schema.getitem table "table_type"); [|congruence].
    destruct (Schema.getitem table "table_schema"); [|congruence].
    discriminate.
Qed.

(** X27: [get_schema_info] answers the empty schema both when the table
    query fails and when it returns no row, so the two cannot be told
    apart.  Otherwise, when every row carries the three expected keys the
    call succeeds; [total_tables] is the number of entries under
    [tables] (views are not counted), [total_columns] is the sum of the
    column counts reported for all rows, tables and views alike, a failed
    column query counting for zero, and no more entries are stored than
    rows were returned. *)
Theorem schema_info_totals
        (exec : str -> option (list Database.value) -> option (list Database.row)) :
  (exec Schema.table_query None = None
   \/ exec Schema.table_query None = Some [] ->
   Schema.get_schema_info exec = Some Schema.empty_schema)
  /\ (forall rows,
         exec Schema.table_query None = Some rows ->
         (forall table, In table rows ->
            Schema.getitem table "table_name" <> None
            /\ Schema.getitem table "table_type" <> None
            /\ Schema.getitem table "table_schema" <> None) ->
         exists s,
           Schema.get_schema_info exec = Some s
           /\ Schema.total_tables s = List.length (Schema.tables s)
           /\ Schema.total_columns s
              = list_sum (map (Schema.columns_of exec) rows)
           /\ List.length (Schema.tables s) + List.length (Schema.views s)
              <= List.length rows).
Proof.
  unfold Schema.get_schema_info. split.
  - intros [-> | ->]; reflexivity.
  - intros rows -> Hkeys. destruct rows as [|r rows].
    { exists Schema.empty_schema. repeat split; simpl; lia. }
    destruct (Schema.add_tables exec Schema.empty_schema (r :: rows))
      as [s|] eqn:E.
    + apply add_tables_effect in E as [E1 E2].
      eexists. split; [reflexivity|]. simpl in *. repeat split; auto; lia.
    + exfalso. exact (@add_tables_defined exec _ Hkeys Schema.empty_schema E).
Qed.

Lemma schema_info_totals_witness :
  exists s,
    Schema.get_schema_info Samples.sample_catalog = Some s
    /\ Schema.total_tables s = List.length (Schema.tables s)
    /\ Schema.total_columns s
       = list_sum (map (Schema.columns_of Samples.sample_catalog)
                       Samples.sample_tables)
    /\ List.length (Schema.tables s) + List.length (Schema.views s)
       <= List.length Samples.sample_tables.
Proof.
  apply (proj2 (schema_info_totals Samples.sample_catalog)
               Samples.sample_tables).
  - reflexivity.
  - intros table [<-|[<-|[]]]; repeat split; discriminate.
Defined.
